(** * py3status module [mellowplayer]: a shallow embedding and its properties

    The module polls the MellowPlayer MPRIS object over D-Bus, cleans the
    album and title with two regular expressions, renders a template and
    picks a colour.  This file embeds

    - the string primitives the module calls ([str.strip], [str.join],
      [str.replace], slicing),
    - the fragment of Python's [re] the two patterns live in (a parser for
      the pattern text, a backtracking matcher, [re.sub]),
    - [datetime.timedelta] construction from microseconds and its [str],
    - the methods of the class [Py3status] of [mellowplayer.py],

    and proves properties of them.

    Modelling conventions.  A Python string is a list of characters; a
    character is a code point below 256 (type [ascii]).  Case-insensitive
    comparison and whitespace are those of Python 3 restricted to that
    range.  Python exceptions are the [Raise] case of [result].  The
    pattern syntax covered is the one the two expressions use: literals,
    the dot, character sets, groups, alternation, and the greedy and lazy
    star; any other construct in a configured word makes compilation
    answer [Unsupported].  [re.sub] follows Python 3.7 and later on empty
    matches; the two patterns never match the empty text. *)

From Stdlib Require Import Ascii String.
From Stdlib Require Import List ZArith Lia Bool Arith DecimalString.
Import ListNotations.
Local Open Scope list_scope.

Set Warnings "-register-all".

(** ** Strings *)

Definition str := list ascii.

(** String literals are written [L "text"]. *)
Definition L (s : string) : str := list_ascii_of_string s.

Fixpoint str_eqb (a b : str) : bool :=
  match a, b with
  | [], [] => true
  | x :: a', y :: b' => Ascii.eqb x y && str_eqb a' b'
  | _, _ => false
  end.

Definition code (c : ascii) : nat := nat_of_ascii c.

Definition in_range (lo hi n : nat) : bool := (lo <=? n) && (n <=? hi).

(** [str.isspace] on one character: TAB..CR, FS..US, space, NEL, NBSP. *)
Definition is_space (c : ascii) : bool :=
  let n := code c in
  in_range 9 13 n || in_range 28 32 n || (n =? 133) || (n =? 160).

Fixpoint lstrip (s : str) : str :=
  match s with
  | c :: s' => if is_space c then lstrip s' else s
  | [] => []
  end.

Definition rstrip (s : str) : str := rev (lstrip (rev s)).

(** [s.strip()] *)
Definition strip (s : str) : str := rstrip (lstrip s).

(** [sep.join(l)] *)
Fixpoint join (sep : str) (l : list str) : str :=
  match l with
  | [] => []
  | w :: l' => match l' with [] => w | _ :: _ => w ++ sep ++ join sep l' end
  end.

Fixpoint prefixb (p s : str) : bool :=
  match p, s with
  | [], _ => true
  | x :: p', y :: s' => Ascii.eqb x y && prefixb p' s'
  | _ :: _, [] => false
  end.

(** [s.replace(old, new)]: every non-overlapping occurrence of [old], found
    from the left, becomes [new]; [skip] counts the characters of the
    current occurrence still to be dropped. *)
Fixpoint replace_go (old new : str) (skip : nat) (s : str) : str :=
  match s with
  | [] => []
  | c :: s' =>
      match skip with
      | S k => replace_go old new k s'
      | O => if prefixb old s
             then new ++ replace_go old new (length old - 1) s'
             else c :: replace_go old new 0 s'
      end
  end.

Definition replace (old new s : str) : str :=
  match old with
  | [] => new ++ flat_map (fun c => c :: new) s
  | _ :: _ => replace_go old new 0 s
  end.

(** [s[:-n]] for [n > 0] *)
Definition drop_last (n : nat) (s : str) : str := firstn (length s - n) s.

(** One-character lower case (A-Z and the Latin-1 capitals). *)
Definition lower (c : ascii) : ascii :=
  let n := code c in
  if in_range 65 90 n || (in_range 192 222 n && negb (n =? 215))
  then ascii_of_nat (n + 32) else c.

(** ** The fragment of [re] used by the module *)

Module Re.

(** Parsed patterns.  [Group] is a capturing group; nothing refers back to
    a capture, so it only brackets. *)
Inductive regex : Type :=
| Eps
| Lit (c : ascii)
| Dot
| Set_ (neg : bool) (cs : list ascii)
| Cat (r1 r2 : regex)
| Alt (r1 r2 : regex)
| Star (greedy : bool) (r : regex)
| Group (r : regex).

(** Result of compiling a pattern text: a pattern, [re.error], or a
    construct outside the fragment modelled here, about which nothing is
    said. *)
Inductive compiled (A : Type) : Type :=
| Ok (a : A)
| ReError
| Unsupported.
Arguments Ok {A} a.
Arguments ReError {A}.
Arguments Unsupported {A}.

Definition mk_cat (items : list regex) : regex := fold_right Cat Eps items.

Fixpoint mk_alt (branches : list regex) : regex :=
  match branches with
  | [] => Eps
  | r :: bs => match bs with [] => r | _ :: _ => Alt r (mk_alt bs) end
  end.

(** The parser reads the pattern text once, left to right.  A [frame]
    holds the branches already closed by a bar and the items of the branch
    being read, both latest first. *)
Record frame : Type := Frame { alts : list regex; items : list regex }.

Inductive mode : Type :=
| Normal
| Escape                                  (* after a backslash *)
| AfterStar                               (* after a star: [?] makes it lazy *)
| AfterLazy                               (* after star-question *)
| SetStart                                (* after the opening bracket *)
| InSet (neg : bool) (first : bool) (cs : list ascii)
| SetEscape (neg : bool) (cs : list ascii).

Record pstate : Type :=
  PState { outer : list frame; cur : frame; pmode : mode }.

Definition push_item (r : regex) (f : frame) : frame :=
  Frame (alts f) (r :: items f).

Definition close_frame (f : frame) : regex :=
  mk_alt (rev (mk_cat (rev (items f)) :: alts f)).

Definition is_alnum (c : ascii) : bool :=
  let n := code c in
  in_range 48 57 n || in_range 65 90 n || in_range 97 122 n.

Definition is_ascii_punct (c : ascii) : bool :=
  (code c <? 128) && negb (is_alnum c).

Definition ch (s : string) : ascii :=
  match s with String c _ => c | EmptyString => zero end.

Definition is_char (s : string) (c : ascii) : bool := Ascii.eqb (ch s) c.

Definition one_of (s : string) (c : ascii) : bool :=
  existsb (Ascii.eqb c) (list_ascii_of_string s).

(** An ordinary character, a dot, a bracket, a bar, a star or a backslash
    read where an item may start. *)
Definition step_normal (st : pstate) (c : ascii) : compiled pstate :=
  let f := cur st in
  if is_char "\" c then Ok (PState (outer st) f Escape)
  else if is_char "." c then Ok (PState (outer st) (push_item Dot f) Normal)
  else if is_char "[" c then Ok (PState (outer st) f SetStart)
  else if is_char "(" c then Ok (PState (f :: outer st) (Frame [] []) Normal)
  else if is_char ")" c then
    match outer st with
    | [] => ReError                         (* unbalanced parenthesis *)
    | g :: fs => Ok (PState fs (push_item (Group (close_frame f)) g) Normal)
    end
  else if is_char "|" c then
    Ok (PState (outer st) (Frame (mk_cat (rev (items f)) :: alts f) []) Normal)
  else if is_char "*" c then
    match items f with
    | [] => ReError                         (* nothing to repeat *)
    | r :: rs => Ok (PState (outer st) (Frame (alts f) (Star true r :: rs)) AfterStar)
    end
  else if one_of "+?{^$" c then Unsupported
  else Ok (PState (outer st) (push_item (Lit c) f) Normal).

Definition step (st : pstate) (c : ascii) : compiled pstate :=
  let f := cur st in
  match pmode st with
  | Normal => step_normal st c
  | Escape =>
      if is_ascii_punct c
      then Ok (PState (outer st) (push_item (Lit c) f) Normal)
      else Unsupported
  | AfterStar =>
      if is_char "?" c then
        match items f with
        | Star _ r :: rs =>
            Ok (PState (outer st) (Frame (alts f) (Star false r :: rs)) AfterLazy)
        | _ => Unsupported
        end
      else if one_of "*+{" c then Unsupported
      else step_normal st c
  | AfterLazy =>
      if one_of "*+?{" c then Unsupported else step_normal st c
  | SetStart =>
      if is_char "^" c then Ok (PState (outer st) f (InSet true true []))
      else if is_char "\" c then Ok (PState (outer st) f (SetEscape false []))
      else if is_char "-" c then Unsupported
      else Ok (PState (outer st) f (InSet false false [c]))
  | InSet neg first cs =>
      if is_char "]" c then
        if first then Ok (PState (outer st) f (InSet neg false (cs ++ [c])))
        else Ok (PState (outer st) (push_item (Set_ neg cs) f) Normal)
      else if is_char "\" c then Ok (PState (outer st) f (SetEscape neg cs))
      else if is_char "-" c then Unsupported
      else Ok (PState (outer st) f (InSet neg false (cs ++ [c])))
  | SetEscape neg cs =>
      if is_ascii_punct c
      then Ok (PState (outer st) f (InSet neg false (cs ++ [c])))
      else Unsupported
  end.

Fixpoint run (st : pstate) (s : str) : compiled pstate :=
  match s with
  | [] => Ok st
  | c :: s' =>
      match step st c with
      | Ok st' => run st' s'
      | ReError => ReError
      | Unsupported => Unsupported
      end
  end.

(** End of the pattern text. *)
Definition finish (st : pstate) : compiled regex :=
  match pmode st with
  | Normal | AfterStar | AfterLazy =>
      match outer st with
      | [] => Ok (close_frame (cur st))
      | _ :: _ => ReError                   (* missing ), unterminated subpattern *)
      end
  | Escape => ReError                       (* bad escape (end of pattern) *)
  | SetStart | InSet _ _ _ | SetEscape _ _ => ReError   (* unterminated character set *)
  end.

Definition parse (s : str) : compiled regex :=
  match run (PState [] (Frame [] []) Normal) s with
  | Ok st => finish st
  | ReError => ReError
  | Unsupported => Unsupported
  end.

(** A compiled pattern object: the parse tree and the IGNORECASE flag. *)
Record pattern : Type := Pattern { tree : regex; ignorecase : bool }.

(** [re.compile(expression, flags)] *)
Definition compile (expression : str) (ignore_case : bool) : compiled pattern :=
  match parse expression with
  | Ok r => Ok (Pattern r ignore_case)
  | ReError => ReError
  | Unsupported => Unsupported
  end.

(** Does pattern character [c] accept subject character [x]? *)
Definition chr_eq (ic : bool) (c x : ascii) : bool :=
  if ic then Ascii.eqb (lower c) (lower x) else Ascii.eqb c x.

Definition is_newline (x : ascii) : bool := code x =? 10.

Definition orelse (a : option str) (b : unit -> option str) : option str :=
  match a with Some e => Some e | None => b tt end.

(** Backtracking matcher.  [rmatch ic r s k] matches [r] at the head of
    [s] and hands the remaining text to [k]; alternatives are tried in the
    order of the engine: left branch first, longest first for a greedy
    star, shortest first for a lazy one.  An iteration of a star that
    consumes nothing is not taken.  The result is the text left after the
    whole match. *)
Fixpoint rmatch (ic : bool) (r : regex) (s : str) (k : str -> option str)
  {struct r} : option str :=
  match r with
  | Eps => k s
  | Lit c =>
      match s with
      | x :: s' => if chr_eq ic c x then k s' else None
      | [] => None
      end
  | Dot =>
      match s with
      | x :: s' => if is_newline x then None else k s'
      | [] => None
      end
  | Set_ neg cs =>
      match s with
      | x :: s' => if xorb neg (existsb (fun c => chr_eq ic c x) cs) then k s' else None
      | [] => None
      end
  | Cat r1 r2 => rmatch ic r1 s (fun s1 => rmatch ic r2 s1 k)
  | Alt r1 r2 => orelse (rmatch ic r1 s k) (fun _ => rmatch ic r2 s k)
  | Group r1 => rmatch ic r1 s k
  | Star greedy r1 =>
      (fix loop (n : nat) (s0 : str) {struct n} : option str :=
         match n with
         | O => k s0
         | S n' =>
             let again (_ : unit) :=
               rmatch ic r1 s0
                 (fun s1 => if length s1 <? length s0 then loop n' s1 else None) in
             if greedy then orelse (again tt) (fun _ => k s0)
             else orelse (k s0) again
         end) (length s) s
  end.

(** The match starting at the head of [s], as the text that follows it. *)
Definition match_here (p : pattern) (s : str) : option str :=
  rmatch (ignorecase p) (tree p) s (fun e => Some e).

(** The same, refusing the empty match. *)
Definition match_here_nonempty (p : pattern) (s : str) : option str :=
  rmatch (ignorecase p) (tree p) s
    (fun e => if length e <? length s then Some e else None).

(** [re.sub(p, repl, s)] for a replacement text without escapes: scan from
    the left, replace each match, go on behind it.  [skip] counts the
    characters of the current match still to be dropped.  After an empty
    match the engine looks for a non-empty one at the same place before it
    moves on. *)
Fixpoint sub_go (p : pattern) (repl : str) (skip : nat) (s : str) : str :=
  match s with
  | [] => match match_here p [] with Some _ => repl | None => [] end
  | c :: s' =>
      match skip with
      | S n => sub_go p repl n s'
      | O =>
          match match_here p s with
          | None => c :: sub_go p repl 0 s'
          | Some e =>
              if length e <? length s
              then repl ++ sub_go p repl (length s - length e - 1) s'
              else repl ++
                   match match_here_nonempty p s with
                   | Some e' => repl ++ sub_go p repl (length s - length e' - 1) s'
                   | None => c :: sub_go p repl 0 s'
                   end
          end
      end
  end.

Definition sub (p : pattern) (repl : str) (s : str) : str := sub_go p repl 0 s.

End Re.

(** ** Python values, exceptions *)

Inductive exn : Type :=
| TypeError
| AttributeError
| IndexError
| KeyError
| OverflowError
| DBusException
| OtherException.

(** A computation that returns or raises. *)
Inductive result (A : Type) : Type :=
| Return (a : A)
| Raise (e : exn).
Arguments Return {A} a.
Arguments Raise {A} e.

Definition bind {A B : Type} (m : result A) (f : A -> result B) : result B :=
  match m with
  | Return a => f a
  | Raise e => Raise e
  end.

(** [try: body  except Exception: handler] *)
Definition try_except {A : Type} (body : result A) (handler : result A) : result A :=
  match body with
  | Return a => Return a
  | Raise _ => handler
  end.

Notation "x <- m ;; k" := (bind m (fun x => k))
  (at level 61, m at next level, right associativity).

(** The values the bus hands over: [None], integers, strings, arrays and
    dictionaries keyed by strings. *)
Inductive pyval : Type :=
| VNone
| VInt (z : Z)
| VStr (s : str)
| VList (l : list pyval)
| VDict (d : list (str * pyval)).

Fixpoint lookup (key : str) (d : list (str * pyval)) : option pyval :=
  match d with
  | [] => None
  | (k, v) :: d' => if str_eqb k key then Some v else lookup key d'
  end.

(** [obj.get(key)] *)
Definition py_get (obj : pyval) (key : str) : result pyval :=
  match obj with
  | VDict d => Return (match lookup key d with Some v => v | None => VNone end)
  | _ => Raise AttributeError
  end.

(** [obj[0]] *)
Definition py_first (obj : pyval) : result pyval :=
  match obj with
  | VList (x :: _) => Return x
  | VList [] => Raise IndexError
  | VStr (c :: _) => Return (VStr [c])
  | VStr [] => Raise IndexError
  | VDict _ => Raise KeyError
  | VNone | VInt _ => Raise TypeError
  end.

(** [obj.strip()] *)
Definition py_strip (obj : pyval) : result pyval :=
  match obj with
  | VStr s => Return (VStr (strip s))
  | _ => Raise AttributeError
  end.

(** [obj == 'text'] *)
Definition py_eq_str (obj : pyval) (t : str) : bool :=
  match obj with
  | VStr s => str_eqb s t
  | _ => false
  end.

(** Truth value of an optional colour, and [a or b]. *)
Definition truthy (c : option str) : bool :=
  match c with
  | Some (_ :: _) => true
  | _ => false
  end.

Definition py_or (a b : option str) : option str := if truthy a then a else b.

(** ** [datetime.timedelta] *)

Module Timedelta.

Record timedelta : Type :=
  TD { days : Z; seconds : Z; microseconds : Z }.

(** [timedelta(microseconds=us)] for an integer [us]: the three fields are
    normalised with floor division; more than 999999999 days either way
    is an [OverflowError]. *)
Definition of_microseconds (us : Z) : result timedelta :=
  let total := (us / 1000000)%Z in
  let d := (total / 86400)%Z in
  if (Z.abs d <=? 999999999)%Z
  then Return (TD d (total mod 86400) (us mod 1000000))
  else Raise OverflowError.

Definition digit (n : Z) : ascii := ascii_of_nat (48 + Z.to_nat n).

(** ["%d" % z] *)
Definition fmt_d (z : Z) : str :=
  list_ascii_of_string (DecimalString.NilZero.string_of_int (Z.to_int z)).

(** ["%02d" % n] for [0 <= n < 100] *)
Definition fmt_02d (n : Z) : str := [digit (n / 10); digit (n mod 10)].

(** ["%06d" % n] for [0 <= n < 1000000] *)
Definition fmt_06d (n : Z) : str :=
  [digit (n / 100000); digit (n / 10000 mod 10); digit (n / 1000 mod 10);
   digit (n / 100 mod 10); digit (n / 10 mod 10); digit (n mod 10)].

(** [str(td)]: [H:MM:SS], preceded by the days when there are any and
    followed by the six microsecond digits when there are any. *)
Definition to_str (td : timedelta) : str :=
  let mm := (seconds td / 60)%Z in
  let ss := (seconds td mod 60)%Z in
  let hh := (mm / 60)%Z in
  let mm := (mm mod 60)%Z in
  let s := fmt_d hh ++ L ":" ++ fmt_02d mm ++ L ":" ++ fmt_02d ss in
  let s := if (days td =? 0)%Z then s
           else fmt_d (days td) ++ L " day"
                ++ (if (Z.abs (days td) =? 1)%Z then [] else L "s") ++ L ", " ++ s in
  if (microseconds td =? 0)%Z then s
  else s ++ L "." ++ fmt_06d (microseconds td).

(** [timedelta(microseconds=v)] for the values of the bus. *)
Definition py_timedelta (v : pyval) : result timedelta :=
  match v with
  | VInt us => of_microseconds us
  | _ => Raise TypeError
  end.

End Timedelta.

(** ** The bus *)

(** A proxy object answers [Get(interface, property)] of
    [org.freedesktop.DBus.Properties]. *)
Record proxy_object : Type :=
  { properties_Get : str -> str -> result pyval }.

(** [dbus.Interface(proxy, name)] *)
Record Interface : Type :=
  { iface_object : proxy_object; iface_name : str }.

Definition Get (player : Interface) (interface_name property : str) : result pyval :=
  properties_Get (iface_object player) interface_name property.

Record bus : Type :=
  { get_object : str -> str -> result proxy_object }.

(** What [dbus.SessionBus()] does when the poll runs. *)
Record dbus_world : Type :=
  { SessionBus : result bus }.

(** ** The module *)

(** The helper object [self.py3] of the host: the theme's colours, each of
    which may be unset, the clock and the template formatter. *)
Record py3_helper : Type :=
  { COLOR_PLAYING : option str;
    COLOR_GOOD : option str;
    COLOR_PAUSED : option str;
    COLOR_DEGRADED : option str;
    COLOR_OFFLINE : option str;
    COLOR_BAD : option str;
    time_in : Z -> Z;
    safe_format : str -> list (str * pyval) -> result str }.

(** Configuration parameters of the class. *)
Record config : Type :=
  { cache_timeout : Z;
    format : str;
    format_down : str;
    format_stopped : str;
    sanitize_titles : bool;
    sanitize_words : list str;
    py3 : py3_helper }.

Definition default_sanitize_words : list str :=
  [L "bonus"; L "demo"; L "edit"; L "explicit"; L "extended"; L "feat"; L "mono";
   L "remaster"; L "stereo"; L "version"].

Definition default_config (h : py3_helper) : config :=
  {| cache_timeout := 5;
     format := L "{artist} : {title}";
     format_down := L "MellowPlayer not running";
     format_stopped := L "MellowPlayer stopped";
     sanitize_titles := true;
     sanitize_words := default_sanitize_words;
     py3 := h |}.

(** The object after [post_config_hook]. *)
Record Py3status : Type :=
  { cfg : config;
    after_delimiter : Re.pattern;
    inside_brackets : Re.pattern }.

Definition IGNORECASE : bool := true.

Definition _compile_re (c : config) (expression : str) : Re.compiled Re.pattern :=
  let meta_words := join (L "|") (sanitize_words c) in
  let expression := replace (L "META_WORDS_HERE") meta_words expression in
  Re.compile expression IGNORECASE.

Definition after_delimiter_expression : str :=
  L "([\-,;/])([^\-,;/])*(META_WORDS_HERE).*".

Definition inside_brackets_expression : str :=
  L "([\(\[][^)\]]*?(META_WORDS_HERE)[^)\]]*?[\)\]])".

Definition post_config_hook (c : config) : Re.compiled Py3status :=
  match _compile_re c after_delimiter_expression with
  | Re.Ok ad =>
      match _compile_re c inside_brackets_expression with
      | Re.Ok ib => Re.Ok {| cfg := c; after_delimiter := ad; inside_brackets := ib |}
      | Re.ReError => Re.ReError
      | Re.Unsupported => Re.Unsupported
      end
  | Re.ReError => Re.ReError
  | Re.Unsupported => Re.Unsupported
  end.

(** [_sanitize_title] on a string. *)
Definition sanitize (self : Py3status) (title : str) : str :=
  let title := Re.sub (inside_brackets self) [] title in
  let title := Re.sub (after_delimiter self) [] title in
  strip title.

(** [_sanitize_title] on a value: [re.sub] refuses what is not a string. *)
Definition _sanitize_title (self : Py3status) (title : pyval) : result pyval :=
  match title with
  | VStr s => Return (VStr (sanitize self s))
  | _ => Raise TypeError
  end.

Definition color_playing (self : Py3status) : option str :=
  py_or (COLOR_PLAYING (py3 (cfg self))) (COLOR_GOOD (py3 (cfg self))).

Definition color_paused (self : Py3status) : option str :=
  py_or (COLOR_PAUSED (py3 (cfg self))) (COLOR_DEGRADED (py3 (cfg self))).

Definition color_offline (self : Py3status) : option str :=
  py_or (COLOR_OFFLINE (py3 (cfg self))) (COLOR_BAD (py3 (cfg self))).

(** What the inner [try] block leaves in its variables. *)
Record track : Type :=
  { t_album : pyval; t_artist : pyval; t_rtime : str; t_title : pyval;
    t_color : option str }.

(** [str(timedelta(microseconds=microtime))[:-7]] *)
Definition rtime_of (microtime : pyval) : result str :=
  td <- Timedelta.py_timedelta microtime ;;
  Return (drop_last 7 (Timedelta.to_str td)).

(** The body of the inner [try]. *)
Definition read_track (self : Py3status) (player : Interface) : result track :=
  metadata <- Get player (L "org.mpris.MediaPlayer2.Player") (L "Metadata") ;;
  album <- py_get metadata (L "xesam:album") ;;
  artists <- py_get metadata (L "xesam:artist") ;;
  artist <- py_first artists ;;
  microtime <- py_get metadata (L "mpris:length") ;;
  rtime <- rtime_of microtime ;;
  title <- py_get metadata (L "xesam:title") ;;
  album_title <-
    (if sanitize_titles (cfg self)
     then album' <- _sanitize_title self album ;;
          title' <- _sanitize_title self title ;;
          Return (album', title')
     else Return (album, title)) ;;
  playback_status <- Get player (L "org.mpris.MediaPlayer2.Player") (L "PlaybackStatus") ;;
  stripped <- py_strip playback_status ;;
  let color := if py_eq_str stripped (L "Playing")
               then color_playing self else color_paused self in
  Return {| t_album := fst album_title; t_artist := artist; t_rtime := rtime;
            t_title := snd album_title; t_color := color |}.

(** [dict(title=title, artist=artist, album=album, time=rtime)] *)
Definition format_params (t : track) : list (str * pyval) :=
  [(L "title", t_title t); (L "artist", t_artist t); (L "album", t_album t);
   (L "time", VStr (t_rtime t))].

(** The body of the outer [try], given the bus.  The handler of the inner
    [try] returns from the method; the call of [safe_format] comes after
    the inner [try] and inside the outer one.  The attributes the method
    stores on the object on its way are read by nothing else and are left
    out. *)
Definition poll_player (self : Py3status) (b : bus) : result (str * option str) :=
  obj <- get_object b (L "org.mpris.MediaPlayer2.MellowPlayer") (L "/org/mpris/MediaPlayer2") ;;
  let player := {| iface_object := obj; iface_name := L "org.freedesktop.DBus.Properties" |} in
  match read_track self player with
  | Raise _ => Return (format_stopped (cfg self), color_paused self)
  | Return t =>
      text <- safe_format (py3 (cfg self)) (format (cfg self)) (format_params t) ;;
      Return (text, t_color t)
  end.

(** [_get_text]: the session bus is opened before the outer [try]. *)
Definition _get_text (self : Py3status) (w : dbus_world) : result (str * option str) :=
  b <- SessionBus w ;;
  try_except (poll_player self b)
             (Return (format_down (cfg self), color_offline self)).

Record response : Type :=
  { cached_until : Z; color : option str; full_text : str }.

(** [mellowplayer]: the response handed to the host. *)
Definition mellowplayer (self : Py3status) (w : dbus_world) : result response :=
  tc <- _get_text self w ;;
  Return {| cached_until := time_in (py3 (cfg self)) (cache_timeout (cfg self));
            color := snd tc; full_text := fst tc |}.

(** ** The template formatter of the host *)

(** Modelled from the spec: how a parameter value shows in the rendered
    text.  The spec says that a placeholder whose value is missing or null
    renders as an empty substitution instead of raising: a string is
    inserted as it is, any other value as the empty text, and a name that
    is not among the parameters is left as written. *)
Definition render_value (key : str) (v : option pyval) : str :=
  match v with
  | Some (VStr s) => s
  | Some _ => []
  | None => L "{" ++ key ++ L "}"
  end.

(** Modelled from the spec: the scan of the template for [{name}]
    placeholders; [key] holds the name being read, if any. *)
Fixpoint format_go (params : list (str * pyval)) (key : option str) (s : str) : str :=
  match s with
  | [] => match key with Some k => L "{" ++ k | None => [] end
  | c :: s' =>
      match key with
      | None =>
          if Re.is_char "{" c then format_go params (Some []) s'
          else c :: format_go params None s'
      | Some k =>
          if Re.is_char "}" c
          then render_value k (lookup k params) ++ format_go params None s'
          else format_go params (Some (k ++ [c])) s'
      end
  end.

(** Modelled from the spec: [py3.safe_format] belongs to the host and is
    not part of [mellowplayer.py].  The spec says that the template is
    rendered by substituting [{album}], [{artist}], [{title}] and [{time}]
    and that the rendering does not raise. *)
Definition safe_format_spec (template : str) (params : list (str * pyval)) : result str :=
  Return (format_go params None template).

(** * Vocabulary of the statements *)

(** ** Suffixes and texts without a match *)

Definition suffix_of (x s : str) : Prop := exists pre, s = pre ++ x.

(** No match of [p] starts anywhere in [s]. *)
Definition clean (p : Re.pattern) (s : str) : Prop :=
  forall x, suffix_of x s -> Re.match_here p x = None.

(** ** Character classes and plain words *)

Definition is_opener (x : ascii) : bool := Re.one_of "([" x.
Definition is_closer (x : ascii) : bool := Re.one_of ")]" x.
Definition is_delim (x : ascii) : bool := Re.one_of "-,;/" x.

(** Characters with a meaning in a pattern text, and the two closing
    brackets. *)
Definition meta_char (x : ascii) : bool := Re.one_of "\.^$*+?{}[]()|" x.

Definition plain_word (w : str) : bool := forallb (fun c => negb (meta_char c)) w.

Definition plain_words (ws : list str) : bool := forallb plain_word ws.

Definition all_ascii : list ascii := map ascii_of_nat (seq 0 256).

(** ** The two patterns of a word list *)

Definition lits (w : str) : Re.regex := Re.mk_cat (map Re.Lit w).

(** The word list as the engine sees it: the empty list still leaves one
    branch, the empty one. *)
Definition eff_words (ws : list str) : list str :=
  match ws with [] => [[]] | _ :: _ => ws end.

Definition words_regex (ws : list str) : Re.regex :=
  Re.mk_alt (map lits (eff_words ws)).

Definition delim_tree (ws : list str) : Re.regex :=
  Re.Cat (Re.Group (Re.Cat (Re.Set_ false (L "-,;/")) Re.Eps))
    (Re.Cat (Re.Star true (Re.Group (Re.Cat (Re.Set_ true (L "-,;/")) Re.Eps)))
       (Re.Cat (Re.Group (words_regex ws))
          (Re.Cat (Re.Star true Re.Dot) Re.Eps))).

Definition bracket_tree (ws : list str) : Re.regex :=
  Re.Cat
    (Re.Group
       (Re.Cat (Re.Set_ false (L "(["))
          (Re.Cat (Re.Star false (Re.Set_ true (L ")]")))
             (Re.Cat (Re.Group (words_regex ws))
                (Re.Cat (Re.Star false (Re.Set_ true (L ")]")))
                   (Re.Cat (Re.Set_ false (L ")]")) Re.Eps))))))
    Re.Eps.

Definition bracket_pattern (ws : list str) : Re.pattern :=
  Re.Pattern (bracket_tree ws) true.

Definition delim_pattern (ws : list str) : Re.pattern :=
  Re.Pattern (delim_tree ws) true.

(** The frame of the group once the joined words are read. *)
Fixpoint read_words (al : list Re.regex) (ws : list str) : Re.frame :=
  match ws with
  | [] => Re.Frame al []
  | w :: ws' =>
      match ws' with
      | [] => Re.Frame al (rev (map Re.Lit w))
      | _ :: _ => read_words (lits w :: al) ws'
      end
  end.

(** ** The matcher on the two patterns *)

(** [ci_strip w s]: the text after [w] when [s] starts with [w], case
    ignored. *)
Fixpoint ci_strip (w s : str) : option str :=
  match w with
  | [] => Some s
  | c :: w' =>
      match s with
      | x :: s' => if Re.chr_eq true c x then ci_strip w' s' else None
      | [] => None
      end
  end.

(** The words in turn; the first one that matches and lets the rest of the
    pattern match wins. *)
Fixpoint try_words (ws : list str) (s : str) (k : str -> option str) : option str :=
  match ws with
  | [] => None
  | w :: ws' =>
      Re.orelse (match ci_strip w s with Some r => k r | None => None end)
                (fun _ => try_words ws' s k)
  end.

(** A pattern that reads exactly one character, accepted by [f]. *)
Definition one_char (r : Re.regex) (f : ascii -> bool) : Prop :=
  forall s k,
    Re.rmatch true r s k
    = match s with x :: s' => if f x then k s' else None | [] => None end.

(** Greedy and lazy repetition of a one-character pattern. *)
Fixpoint greedy_run (f : ascii -> bool) (k : str -> option str) (s : str) : option str :=
  match s with
  | [] => k []
  | x :: s' => if f x then Re.orelse (greedy_run f k s') (fun _ => k s) else k s
  end.

Fixpoint lazy_run (f : ascii -> bool) (k : str -> option str) (s : str) : option str :=
  match s with
  | [] => k []
  | x :: s' => Re.orelse (k s) (fun _ => if f x then lazy_run f k s' else None)
  end.

(** The rest of the line is dropped. *)
Fixpoint skip_line (s : str) : str :=
  match s with
  | [] => []
  | x :: s' => if Re.is_newline x then s else skip_line s'
  end.

(** A word at the head of [s], then the rest of the line. *)
Definition word_tail (ws : list str) (s : str) : option str :=
  try_words ws s (fun r => Some (skip_line r)).

(** The match of [after_delimiter] at the head of [s]. *)
Definition delim_at (ws : list str) (s : str) : option str :=
  match s with
  | d :: t =>
      if is_delim d
      then greedy_run (fun x => negb (is_delim x)) (word_tail (eff_words ws)) t
      else None
  | [] => None
  end.

(** The text behind the first closing bracket. *)
Fixpoint to_closer (s : str) : option str :=
  match s with
  | [] => None
  | x :: s' => if is_closer x then Some s' else to_closer s'
  end.

Definition closer_here (s : str) : option str :=
  match s with
  | x :: s' => if is_closer x then Some s' else None
  | [] => None
  end.

(** The match of [inside_brackets] at the head of [s], as the engine
    finds it. *)
Definition bracket_raw (ws : list str) (s : str) : option str :=
  match s with
  | o :: t =>
      if is_opener o
      then lazy_run (fun x => negb (is_closer x))
                    (fun s1 => try_words (eff_words ws) s1 to_closer) t
      else None
  | [] => None
  end.

(** ** Occurrences of words *)

(** [s] starts with [w], case ignored. *)
Definition starts_with (w s : str) : bool :=
  match ci_strip w s with Some _ => true | None => false end.

(** Some word of the list starts [s]. *)
Definition word_here (ws : list str) (s : str) : bool :=
  existsb (fun w => starts_with w s) ws.

(** Some word of the list occurs in [a], case ignored. *)
Fixpoint occurs (ws : list str) (a : str) : bool :=
  word_here ws a || match a with [] => false | _ :: a' => occurs ws a' end.

(** The text before the first closing bracket. *)
Fixpoint seg (s : str) : str :=
  match s with
  | [] => []
  | x :: s' => if is_closer x then [] else x :: seg s'
  end.

(** The match of [inside_brackets] at the head of [s]: an opening bracket,
    a word before the next closing bracket, and that bracket. *)
Definition bracket_at (ws : list str) (s : str) : option str :=
  match s with
  | o :: t => if is_opener o && occurs ws (seg t) then to_closer t else None
  | [] => None
  end.

Definition no_newline (s : str) : Prop := Forall (fun x => Re.is_newline x = false) s.

Definition lacks (f : ascii -> bool) (u : str) : bool := forallb (fun x => negb (f x)) u.

(** ** The time text *)

(** The characters of [H:MM:SS] and of the days prefix. *)
Definition time_char (c : ascii) : bool :=
  in_range 48 57 (code c) || Re.one_of "-: days," c.

Definition no_subsecond (t : str) : Prop := ~ In "."%char t.

(** What [str] prints before the fraction. *)
Definition whole_part (td : Timedelta.timedelta) : str :=
  let mm := (Timedelta.seconds td / 60)%Z in
  let s := Timedelta.fmt_d (mm / 60) ++ L ":" ++ Timedelta.fmt_02d (mm mod 60) ++ L ":"
           ++ Timedelta.fmt_02d (Timedelta.seconds td mod 60) in
  if (Timedelta.days td =? 0)%Z then s
  else Timedelta.fmt_d (Timedelta.days td) ++ L " day"
       ++ (if (Z.abs (Timedelta.days td) =? 1)%Z then [] else L "s") ++ L ", " ++ s.

(** ** The poll *)

Definition PLAYER : str := L "org.mpris.MediaPlayer2.Player".

(** The interface object the poll builds on the proxy. *)
Definition player_of (obj : proxy_object) : Interface :=
  {| iface_object := obj; iface_name := L "org.freedesktop.DBus.Properties" |}.

(** Reaching the player object. *)
Definition reach (b : bus) : result proxy_object :=
  get_object b (L "org.mpris.MediaPlayer2.MellowPlayer") (L "/org/mpris/MediaPlayer2").

(** The statements of the inner [try] that work on the metadata. *)
Definition track_fields (self : Py3status) (metadata : pyval)
  : result (pyval * pyval * str * pyval) :=
  album <- py_get metadata (L "xesam:album") ;;
  artists <- py_get metadata (L "xesam:artist") ;;
  artist <- py_first artists ;;
  microtime <- py_get metadata (L "mpris:length") ;;
  rtime <- rtime_of microtime ;;
  title <- py_get metadata (L "xesam:title") ;;
  album_title <-
    (if sanitize_titles (cfg self)
     then album' <- _sanitize_title self album ;;
          title' <- _sanitize_title self title ;;
          Return (album', title')
     else Return (album, title)) ;;
  Return (fst album_title, artist, rtime, snd album_title).

Definition status_color (self : Py3status) (st : str) : option str :=
  if str_eqb (strip st) (L "Playing") then color_playing self else color_paused self.

Definition down_state (self : Py3status) : str * option str :=
  (format_down (cfg self), color_offline self).

Definition stopped_state (self : Py3status) : str * option str :=
  (format_stopped (cfg self), color_paused self).

(** A value that is absent from the metadata or null. *)
Definition missing (metadata : pyval) (key : str) : Prop :=
  py_get metadata key = Return VNone.

(** The ways the reads of the inner [try] go wrong that the module's
    description lists. *)
Inductive read_failure (self : Py3status) (player : Interface) : Prop :=
| metadata_unreadable e :
    Get player PLAYER (L "Metadata") = Raise e -> read_failure self player
| metadata_not_a_map md :
    Get player PLAYER (L "Metadata") = Return md ->
    (forall d, md <> VDict d) -> read_failure self player
| artist_missing md :
    Get player PLAYER (L "Metadata") = Return md ->
    missing md (L "xesam:artist") -> read_failure self player
| artist_empty md :
    Get player PLAYER (L "Metadata") = Return md ->
    py_get md (L "xesam:artist") = Return (VList []) -> read_failure self player
| length_missing md :
    Get player PLAYER (L "Metadata") = Return md ->
    missing md (L "mpris:length") -> read_failure self player
| album_missing md :
    Get player PLAYER (L "Metadata") = Return md ->
    sanitize_titles (cfg self) = true ->
    missing md (L "xesam:album") -> read_failure self player
| title_missing md :
    Get player PLAYER (L "Metadata") = Return md ->
    sanitize_titles (cfg self) = true ->
    missing md (L "xesam:title") -> read_failure self player
| status_unreadable e :
    Get player PLAYER (L "PlaybackStatus") = Raise e -> read_failure self player
| status_missing :
    Get player PLAYER (L "PlaybackStatus") = Return VNone -> read_failure self player.

(** ** Sample objects *)

(** A theme that sets the three generic colours only. *)
Definition theme (fmt : str -> list (str * pyval) -> result str) : py3_helper :=
  {| COLOR_PLAYING := None; COLOR_GOOD := Some (L "#00FF00");
     COLOR_PAUSED := None; COLOR_DEGRADED := Some (L "#FFFF00");
     COLOR_OFFLINE := None; COLOR_BAD := Some (L "#FF0000");
     time_in := fun seconds => seconds;
     safe_format := fmt |}.

Definition config_with (h : py3_helper) (template : str) (titles : bool)
  (words : list str) : config :=
  {| cache_timeout := 5; format := template;
     format_down := L "MellowPlayer not running";
     format_stopped := L "MellowPlayer stopped";
     sanitize_titles := titles; sanitize_words := words; py3 := h |}.

(** The object the hook builds for a list of plain words. *)
Definition hooked (c : config) : Py3status :=
  {| cfg := c;
     after_delimiter := delim_pattern (sanitize_words c);
     inside_brackets := bracket_pattern (sanitize_words c) |}.

Definition default_self : Py3status := hooked (default_config (theme safe_format_spec)).

(** A formatter that fails. *)
Definition failing_format (template : str) (params : list (str * pyval)) : result str :=
  Raise OtherException.

Definition NL : ascii := ascii_of_nat 10.

Definition two_line_title : str := L "(,)edit," ++ NL :: L "edit)".

Definition sample_metadata : list (str * pyval) :=
  [(L "xesam:album", VStr (L "Whenever You Need Somebody"));
   (L "xesam:artist", VList [VStr (L "Rick Astley")]);
   (L "mpris:length", VInt 213000001);
   (L "xesam:title", VStr (L "Never Gonna Give You Up (Remastered 2017)"))].

(** A player object with the given answers for the two properties. *)
Definition player_object (metadata status : result pyval) : proxy_object :=
  {| properties_Get := fun _ property =>
       if str_eqb property (L "Metadata") then metadata
       else if str_eqb property (L "PlaybackStatus") then status
       else Raise DBusException |}.

Definition bus_with (obj : result proxy_object) : bus :=
  {| get_object := fun _ _ => obj |}.

Definition world_with (obj : result proxy_object) : dbus_world :=
  {| SessionBus := Return (bus_with obj) |}.

Definition without (key : str) (d : list (str * pyval)) : list (str * pyval) :=
  filter (fun kv => negb (str_eqb (fst kv) key)) d.

Definition or_none (v : option pyval) : pyval :=
  match v with Some x => x | None => VNone end.

Definition playing_player : proxy_object :=
  player_object (Return (VDict sample_metadata)) (Return (VStr (L "Playing"))).

(** The module with the default configuration and a formatter that
    fails. *)
Definition failing_self : Py3status := hooked (default_config (theme failing_format)).

(** The module with sanitizing switched off and a template that shows the
    album. *)
Definition unsanitized_self : Py3status :=
  hooked (config_with (theme safe_format_spec) (L "{album} - {title}") false
            default_sanitize_words).

Definition no_artist_player : proxy_object :=
  player_object (Return (VDict (without (L "xesam:artist") sample_metadata)))
                (Return (VStr (L "Playing"))).

Definition paused_player : proxy_object :=
  player_object (Return (VDict sample_metadata)) (Return (VStr (L " Paused "))).

Definition no_album_player : proxy_object :=
  player_object (Return (VDict (without (L "xesam:album") sample_metadata)))
                (Return (VStr (L "Playing"))).


(** ** Further vocabulary *)

(** [a] is [s] with some characters deleted. *)
Inductive subseq : str -> str -> Prop :=
| subseq_nil : subseq [] []
| subseq_skip c a s : subseq a s -> subseq a (c :: s)
| subseq_keep c a s : subseq a s -> subseq (c :: a) (c :: s).

(** The first character of a text is no whitespace. *)
Definition head_not_space (r : str) : Prop :=
  match r with [] => True | c :: _ => is_space c = false end.

(** A value that is there without being a number or a text: null, a list
    or a map. *)
Definition null_list_or_map (v : pyval) : Prop :=
  v = VNone \/ (exists l, v = VList l) \/ (exists d, v = VDict d).

(** Values of the metadata and of the status that make a statement of the
    inner [try] raise although the value is there.  Each case names the
    kinds of value it covers. *)
Inductive malformed_read (self : Py3status) (player : Interface) : Prop :=
| length_text_or_container md v :
    Get player PLAYER (L "Metadata") = Return md ->
    py_get md (L "mpris:length") = Return v ->
    (exists s, v = VStr s) \/ null_list_or_map v -> malformed_read self player
| artist_not_indexable md v :
    Get player PLAYER (L "Metadata") = Return md ->
    py_get md (L "xesam:artist") = Return v ->
    (exists z, v = VInt z) \/ (exists d, v = VDict d) \/ v = VStr [] ->
    malformed_read self player
| title_number_or_container md v :
    Get player PLAYER (L "Metadata") = Return md ->
    sanitize_titles (cfg self) = true ->
    py_get md (L "xesam:title") = Return v ->
    (exists z, v = VInt z) \/ null_list_or_map v -> malformed_read self player
| album_number_or_container md v :
    Get player PLAYER (L "Metadata") = Return md ->
    sanitize_titles (cfg self) = true ->
    py_get md (L "xesam:album") = Return v ->
    (exists z, v = VInt z) \/ null_list_or_map v -> malformed_read self player
| status_number_or_container v :
    Get player PLAYER (L "PlaybackStatus") = Return v ->
    (exists z, v = VInt z) \/ null_list_or_map v -> malformed_read self player.

(** A player that sends the length of the track as a text. *)
Definition text_length_player : proxy_object :=
  player_object
    (Return (VDict ((L "mpris:length", VStr (L "213000001"))
                    :: without (L "mpris:length") sample_metadata)))
    (Return (VStr (L "Playing"))).

(** * Lemmas and theorems *)

(** ** Facts about the string primitives *)

Lemma suffix_of_refl (s : str) : suffix_of s s.
Proof. exists []. reflexivity. Qed.

Lemma suffix_of_cons (x : str) (c : ascii) (s : str) :
  suffix_of x s -> suffix_of x (c :: s).
Proof. intros [pre ->]. exists (c :: pre). reflexivity. Qed.

Lemma suffix_of_cons_inv (x : str) (c : ascii) (s : str) :
  suffix_of x (c :: s) -> x = c :: s \/ suffix_of x s.
Proof.
  intros [pre H]. destruct pre as [|c' pre].
  - left. symmetry. exact H.
  - right. injection H as _ ->. exists pre. reflexivity.
Qed.

Lemma suffix_of_trans (x y z : str) :
  suffix_of x y -> suffix_of y z -> suffix_of x z.
Proof. intros [p ->] [q ->]. exists (q ++ p). now rewrite app_assoc. Qed.

Lemma lstrip_suffix (s : str) : suffix_of (lstrip s) s.
Proof.
  induction s as [|c s IH]; simpl.
  - apply suffix_of_refl.
  - destruct (is_space c).
    + apply suffix_of_cons, IH.
    + apply suffix_of_refl.
Qed.

Lemma lstrip_fixed (s : str) :
  match s with [] => True | c :: _ => is_space c = false end -> lstrip s = s.
Proof. destruct s as [|c s]; simpl; [reflexivity|]. now intros ->. Qed.

Lemma lstrip_head (s : str) :
  match lstrip s with [] => True | c :: _ => is_space c = false end.
Proof.
  induction s as [|c s IH]; simpl; [exact I|].
  destruct (is_space c) eqn:E; [exact IH | exact E].
Qed.

Lemma lstrip_idem (s : str) : lstrip (lstrip s) = lstrip s.
Proof. apply lstrip_fixed, lstrip_head. Qed.

Lemma rstrip_prefix (s : str) : exists post, s = rstrip s ++ post.
Proof.
  unfold rstrip. destruct (lstrip_suffix (rev s)) as [pre H].
  exists (rev pre). rewrite <- rev_app_distr, <- H. now rewrite rev_involutive.
Qed.

Lemma rstrip_idem (s : str) : rstrip (rstrip s) = rstrip s.
Proof. unfold rstrip. now rewrite rev_involutive, lstrip_idem. Qed.

Lemma lstrip_app_keep (a : str) (c : ascii) :
  is_space c = false -> exists b, lstrip (a ++ [c]) = b ++ [c].
Proof.
  intros Hc. induction a as [|x a IH]; simpl.
  - rewrite Hc. now exists [].
  - destruct (is_space x).
    + exact IH.
    + now exists (x :: a).
Qed.

Lemma rstrip_head (s : str) :
  match s with [] => True | c :: _ => is_space c = false end ->
  match rstrip s with [] => True | c :: _ => is_space c = false end.
Proof.
  destruct s as [|c s]; [intros _; exact I|]. intros Hc.
  unfold rstrip. simpl rev.
  destruct (lstrip_app_keep (rev s) c Hc) as [b ->].
  rewrite rev_app_distr. simpl. exact Hc.
Qed.

Lemma strip_idem (s : str) : strip (strip s) = strip s.
Proof.
  unfold strip at 1.
  rewrite (lstrip_fixed (strip s)).
  - unfold strip. apply rstrip_idem.
  - unfold strip. apply rstrip_head, lstrip_head.
Qed.

Lemma strip_infix (s : str) : exists pre post, s = pre ++ strip s ++ post.
Proof.
  destruct (lstrip_suffix s) as [pre H].
  destruct (rstrip_prefix (lstrip s)) as [post H'].
  exists pre, post. unfold strip. now rewrite <- H', <- H.
Qed.

Lemma Forall_lstrip (P : ascii -> Prop) (s : str) : Forall P s -> Forall P (lstrip s).
Proof.
  intros H. destruct (lstrip_suffix s) as [pre E]. rewrite E in H.
  now apply Forall_app in H.
Qed.

Lemma Forall_strip (P : ascii -> Prop) (s : str) : Forall P s -> Forall P (strip s).
Proof.
  intros H. destruct (strip_infix s) as (pre & post & E). rewrite E in H.
  apply Forall_app in H. destruct H as [_ H]. now apply Forall_app in H.
Qed.

(** ** Scanning with a pattern whose matches are never empty *)

Section Scan.

Variable p : Re.pattern.

Hypothesis match_consumes :
  forall s e, Re.match_here p s = Some e -> exists pre, pre <> [] /\ s = pre ++ e.

Lemma sub_go_skip (pre e : str) :
  Re.sub_go p [] (length pre) (pre ++ e) = Re.sub_go p [] 0 e.
Proof.
  induction pre as [|c pre IH]; simpl.
  - reflexivity.
  - exact IH.
Qed.

Lemma match_nil : Re.match_here p [] = None.
Proof.
  destruct (Re.match_here p []) as [e|] eqn:E; [|reflexivity].
  apply match_consumes in E. destruct E as (pre & Hne & H).
  destruct pre; [contradiction | discriminate].
Qed.

Lemma sub_nil : Re.sub p [] [] = [].
Proof. unfold Re.sub. simpl. now rewrite match_nil. Qed.

Lemma sub_some (s e : str) :
  Re.match_here p s = Some e -> Re.sub p [] s = Re.sub p [] e.
Proof.
  intros H. destruct (match_consumes _ _ H) as (pre & Hne & ->).
  destruct pre as [|c pre]; [contradiction|].
  unfold Re.sub. rewrite <- app_comm_cons in *. cbn [Re.sub_go]. rewrite H.
  assert (Hlt : (length e <? length (c :: pre ++ e)) = true).
  { apply Nat.ltb_lt. simpl. rewrite length_app. lia. }
  rewrite Hlt. cbn [app].
  replace (length (c :: pre ++ e) - length e - 1) with (length pre).
  - apply sub_go_skip.
  - cbn [length]. rewrite length_app. lia.
Qed.

Lemma sub_none (c : ascii) (s : str) :
  Re.match_here p (c :: s) = None -> Re.sub p [] (c :: s) = c :: Re.sub p [] s.
Proof. intros H. unfold Re.sub. simpl. now rewrite H. Qed.

Lemma sub_clean (s : str) : clean p s -> Re.sub p [] s = s.
Proof.
  induction s as [|c s IH]; intros H.
  - apply sub_nil.
  - rewrite sub_none.
    + f_equal. apply IH. intros x Hx. apply H. now apply suffix_of_cons.
    + apply H, suffix_of_refl.
Qed.

Lemma clean_suffix (x s : str) : suffix_of x s -> clean p s -> clean p x.
Proof. intros Hx H y Hy. apply H. eapply suffix_of_trans; eassumption. Qed.

Lemma sub_Forall (P : ascii -> Prop) (s : str) :
  Forall P s -> Forall P (Re.sub p [] s).
Proof.
  remember (length s) as n eqn:Hn. revert s Hn.
  induction n as [n IH] using lt_wf_ind. intros s Hn H.
  destruct s as [|c s].
  - rewrite sub_nil. constructor.
  - destruct (Re.match_here p (c :: s)) as [e|] eqn:E.
    + rewrite (sub_some _ _ E). destruct (match_consumes _ _ E) as (pre & Hne & Hs).
      apply (IH (length e)); [|reflexivity|].
      * subst n. rewrite Hs, length_app. destruct pre; [contradiction|simpl; lia].
      * rewrite Hs in H. now apply Forall_app in H.
    + rewrite (sub_none _ _ E). inversion H; subst. constructor; [assumption|].
      apply (IH (length s)); simpl; auto.
Qed.

Hypothesis match_mono :
  forall x y, Re.match_here p x <> None -> Re.match_here p (x ++ y) <> None.

Lemma clean_prefix (a b : str) : clean p (a ++ b) -> clean p a.
Proof.
  intros H x [pre ->].
  destruct (Re.match_here p x) eqn:E; [|reflexivity].
  exfalso. apply (match_mono x b); [congruence|].
  apply H. exists pre. now rewrite app_assoc.
Qed.

Lemma clean_infix (a v b : str) : clean p (a ++ v ++ b) -> clean p v.
Proof.
  intros H. apply clean_prefix with (b := b).
  eapply clean_suffix; [|exact H]. now exists a.
Qed.

End Scan.

(** ** Character classes of the two patterns *)

Lemma all_ascii_complete (c : ascii) : In c all_ascii.
Proof.
  unfold all_ascii. rewrite <- (ascii_nat_embedding c).
  apply in_map, in_seq. pose proof (nat_ascii_bounded c). lia.
Qed.

Lemma forall_ascii (f : ascii -> bool) :
  forallb f all_ascii = true -> forall c, f c = true.
Proof.
  intros H c. rewrite forallb_forall in H. apply H, all_ascii_complete.
Qed.

Lemma forall_ascii2 (f : ascii -> ascii -> bool) :
  forallb (fun c => forallb (f c) all_ascii) all_ascii = true ->
  forall c x, f c x = true.
Proof.
  intros H c x.
  apply (forall_ascii (f c)). revert c. apply forall_ascii. exact H.
Qed.

Lemma ascii_ext (f g : ascii -> bool) :
  forallb (fun x => Bool.eqb (f x) (g x)) all_ascii = true ->
  forall x, f x = g x.
Proof. intros H x. apply Bool.eqb_prop. revert x. now apply forall_ascii. Qed.

Lemma opener_class (x : ascii) :
  existsb (fun c => Re.chr_eq true c x) (L "([") = is_opener x.
Proof. revert x. apply ascii_ext. vm_compute. reflexivity. Qed.

Lemma closer_class (x : ascii) :
  existsb (fun c => Re.chr_eq true c x) (L ")]") = is_closer x.
Proof. revert x. apply ascii_ext. vm_compute. reflexivity. Qed.

Lemma delim_class (x : ascii) :
  existsb (fun c => Re.chr_eq true c x) (L "-,;/") = is_delim x.
Proof. revert x. apply ascii_ext. vm_compute. reflexivity. Qed.

Lemma closer_not_opener (x : ascii) : is_closer x = true -> is_opener x = false.
Proof.
  intros H.
  assert (A : forallb (fun x => implb (is_closer x) (negb (is_opener x))) all_ascii = true)
    by (vm_compute; reflexivity).
  generalize (forall_ascii _ A x). cbv beta.
  rewrite H. simpl. now destruct (is_opener x).
Qed.

(** A plain character of a word never accepts a closing bracket. *)
Lemma plain_not_closer (c x : ascii) :
  meta_char c = false -> Re.chr_eq true c x = true -> is_closer x = false.
Proof.
  intros Hc Hx.
  assert (A : forallb (fun c => forallb
    (fun x => implb (negb (meta_char c) && Re.chr_eq true c x) (negb (is_closer x)))
    all_ascii) all_ascii = true) by (vm_compute; reflexivity).
  generalize (forall_ascii2 _ A c x). cbv beta.
  rewrite Hc, Hx. simpl. now destruct (is_closer x).
Qed.

(** How the parser reads a plain character. *)
Lemma step_plain (st : Re.pstate) (c : ascii) :
  meta_char c = false ->
  Re.step_normal st c
  = Re.Ok (Re.PState (Re.outer st) (Re.push_item (Re.Lit c) (Re.cur st)) Re.Normal).
Proof.
  intros Hc. unfold Re.step_normal.
  assert (A : forallb
    (fun c => implb (negb (meta_char c))
       (negb (Re.is_char "\" c || Re.is_char "." c || Re.is_char "[" c
              || Re.is_char "(" c || Re.is_char ")" c || Re.is_char "|" c
              || Re.is_char "*" c || Re.one_of "+?{^$" c))) all_ascii = true)
    by (vm_compute; reflexivity).
  generalize (forall_ascii _ A c). cbv beta.
  rewrite Hc. simpl.
  destruct (Re.is_char "\" c), (Re.is_char "." c), (Re.is_char "[" c),
    (Re.is_char "(" c), (Re.is_char ")" c), (Re.is_char "|" c),
    (Re.is_char "*" c), (Re.one_of "+?{^$" c); simpl; try discriminate.
  reflexivity.
Qed.

(** ** Compiling the two expressions for plain words *)

Lemma run_app (st : Re.pstate) (a b : str) :
  Re.run st (a ++ b)
  = match Re.run st a with
    | Re.Ok st' => Re.run st' b
    | Re.ReError => Re.ReError
    | Re.Unsupported => Re.Unsupported
    end.
Proof.
  revert st. induction a as [|c a IH]; intros st; simpl.
  - reflexivity.
  - destruct (Re.step st c); auto.
Qed.

Lemma run_plain (w : str) (o : list Re.frame) (al its : list Re.regex) :
  plain_word w = true ->
  Re.run (Re.PState o (Re.Frame al its) Re.Normal) w
  = Re.Ok (Re.PState o (Re.Frame al (rev (map Re.Lit w) ++ its)) Re.Normal).
Proof.
  revert its. induction w as [|c w IH]; intros its Hw; simpl.
  - reflexivity.
  - simpl in Hw. apply andb_prop in Hw. destruct Hw as [Hc Hw].
    apply negb_true_iff in Hc.
    unfold Re.step. cbn [Re.pmode]. rewrite (step_plain _ c Hc).
    unfold Re.push_item. cbn [Re.outer Re.cur Re.alts Re.items].
    rewrite (IH _ Hw). now rewrite <- app_assoc.
Qed.

Lemma run_join (ws : list str) (o : list Re.frame) (al : list Re.regex) :
  plain_words ws = true ->
  Re.run (Re.PState o (Re.Frame al []) Re.Normal) (join (L "|") ws)
  = Re.Ok (Re.PState o (read_words al ws) Re.Normal).
Proof.
  revert al. induction ws as [|w ws IH]; intros al Hws.
  - reflexivity.
  - simpl in Hws. apply andb_prop in Hws. destruct Hws as [Hw Hws].
    destruct ws as [|w2 ws].
    + simpl. rewrite (run_plain w o al [] Hw). now rewrite app_nil_r.
    + change (join (L "|") (w :: w2 :: ws))
        with (w ++ L "|" ++ join (L "|") (w2 :: ws)).
      rewrite run_app, (run_plain w o al [] Hw), app_nil_r.
      change (L "|" ++ join (L "|") (w2 :: ws))
        with (Re.ch "|" :: join (L "|") (w2 :: ws)).
      cbn [Re.run].
      replace (Re.step (Re.PState o (Re.Frame al (rev (map Re.Lit w))) Re.Normal) (Re.ch "|"))
        with (Re.Ok (Re.PState o (Re.Frame (lits w :: al) []) Re.Normal)).
      * rewrite (IH _ Hws). reflexivity.
      * cbv [Re.step Re.step_normal Re.pmode Re.cur Re.outer Re.items Re.alts].
        change (Re.is_char "\" (Re.ch "|")) with false.
        change (Re.is_char "." (Re.ch "|")) with false.
        change (Re.is_char "[" (Re.ch "|")) with false.
        change (Re.is_char "(" (Re.ch "|")) with false.
        change (Re.is_char ")" (Re.ch "|")) with false.
        change (Re.is_char "|" (Re.ch "|")) with true.
        cbv iota. unfold lits. now rewrite rev_involutive.
Qed.

Lemma close_read_words (ws : list str) (al : list Re.regex) :
  Re.close_frame (read_words al ws) = Re.mk_alt (rev al ++ map lits (eff_words ws)).
Proof.
  revert al. induction ws as [|w ws IH]; intros al.
  - reflexivity.
  - destruct ws as [|w2 ws].
    + unfold Re.close_frame. simpl. now rewrite rev_involutive.
    + change (read_words al (w :: w2 :: ws)) with (read_words (lits w :: al) (w2 :: ws)).
      rewrite IH. simpl. now rewrite <- app_assoc.
Qed.

Lemma compile_after_delimiter (c : config) :
  plain_words (sanitize_words c) = true ->
  _compile_re c after_delimiter_expression
  = Re.Ok (delim_pattern (sanitize_words c)).
Proof.
  intros Hws. unfold _compile_re. cbv zeta. unfold Re.compile, Re.parse.
  set (mw := join (L "|") (sanitize_words c)).
  change (replace (L "META_WORDS_HERE") mw after_delimiter_expression)
    with (L "([\-,;/])([^\-,;/])*(" ++ mw ++ L ").*").
  rewrite run_app.
  match goal with |- context [Re.run ?st (L ?s)] =>
    let r := eval vm_compute in (Re.run st (L s)) in
    change (Re.run st (L s)) with r end.
  cbv beta iota. rewrite run_app. unfold mw. rewrite (run_join _ _ _ Hws).
  cbn -[read_words Re.close_frame]. rewrite close_read_words. reflexivity.
Qed.

Lemma compile_inside_brackets (c : config) :
  plain_words (sanitize_words c) = true ->
  _compile_re c inside_brackets_expression
  = Re.Ok (bracket_pattern (sanitize_words c)).
Proof.
  intros Hws. unfold _compile_re. cbv zeta. unfold Re.compile, Re.parse.
  set (mw := join (L "|") (sanitize_words c)).
  change (replace (L "META_WORDS_HERE") mw inside_brackets_expression)
    with (L "([\(\[][^)\]]*?(" ++ mw ++ L ")[^)\]]*?[\)\]])").
  rewrite run_app.
  match goal with |- context [Re.run ?st (L ?s)] =>
    let r := eval vm_compute in (Re.run st (L s)) in
    change (Re.run st (L s)) with r end.
  cbv beta iota. rewrite run_app. unfold mw. rewrite (run_join _ _ _ Hws).
  cbn -[read_words Re.close_frame]. rewrite close_read_words. reflexivity.
Qed.

(** For plain words the hook succeeds, with these two patterns. *)
Lemma post_config_hook_plain (c : config) :
  plain_words (sanitize_words c) = true ->
  post_config_hook c
  = Re.Ok {| cfg := c;
             after_delimiter := delim_pattern (sanitize_words c);
             inside_brackets := bracket_pattern (sanitize_words c) |}.
Proof.
  intros H. unfold post_config_hook.
  now rewrite (compile_after_delimiter c H), (compile_inside_brackets c H).
Qed.

(** ** What the matcher does on the two patterns *)

Lemma rmatch_lits (w s : str) (k : str -> option str) :
  Re.rmatch true (lits w) s k
  = match ci_strip w s with Some r => k r | None => None end.
Proof.
  revert s. induction w as [|c w IH]; intros s.
  - reflexivity.
  - change (lits (c :: w)) with (Re.Cat (Re.Lit c) (lits w)).
    cbn [Re.rmatch ci_strip]. destruct s as [|x s]; [reflexivity|].
    destruct (Re.chr_eq true c x); [apply IH | reflexivity].
Qed.

Lemma orelse_none (a : option str) : Re.orelse a (fun _ => None) = a.
Proof. now destruct a. Qed.

Lemma rmatch_alt_words (w : str) (ws : list str) (s : str) (k : str -> option str) :
  Re.rmatch true (Re.mk_alt (map lits (w :: ws))) s k = try_words (w :: ws) s k.
Proof.
  revert w. induction ws as [|w2 ws IH]; intros w.
  - cbn [map Re.mk_alt try_words]. rewrite rmatch_lits. now rewrite orelse_none.
  - change (Re.mk_alt (map lits (w :: w2 :: ws)))
      with (Re.Alt (lits w) (Re.mk_alt (map lits (w2 :: ws)))).
    cbn [Re.rmatch]. rewrite rmatch_lits, IH. reflexivity.
Qed.

Lemma rmatch_words (ws : list str) (s : str) (k : str -> option str) :
  Re.rmatch true (words_regex ws) s k = try_words (eff_words ws) s k.
Proof.
  unfold words_regex. destruct ws as [|w ws]; cbn [eff_words]; apply rmatch_alt_words.
Qed.

Lemma star_greedy (r : Re.regex) (f : ascii -> bool) :
  one_char r f ->
  forall s k, Re.rmatch true (Re.Star true r) s k = greedy_run f k s.
Proof.
  intros Hr s k. cbn [Re.rmatch].
  match goal with |- ?F (length s) s = _ =>
    assert (A : forall n s0, length s0 <= n -> F n s0 = greedy_run f k s0) end.
  { induction n as [|n IH]; intros s0 Hn.
    - destruct s0; [reflexivity | simpl in Hn; lia].
    - rewrite Hr. destruct s0 as [|x s0]; [reflexivity|].
      cbn [greedy_run]. destruct (f x); [|reflexivity].
      replace (length s0 <? length (x :: s0)) with true
        by (symmetry; apply Nat.ltb_lt; simpl; lia).
      rewrite IH by (simpl in Hn; lia). reflexivity. }
  apply A. lia.
Qed.

Lemma star_lazy (r : Re.regex) (f : ascii -> bool) :
  one_char r f ->
  forall s k, Re.rmatch true (Re.Star false r) s k = lazy_run f k s.
Proof.
  intros Hr s k. cbn [Re.rmatch].
  match goal with |- ?F (length s) s = _ =>
    assert (A : forall n s0, length s0 <= n -> F n s0 = lazy_run f k s0) end.
  { induction n as [|n IH]; intros s0 Hn.
    - destruct s0; [reflexivity | simpl in Hn; lia].
    - rewrite Hr. destruct s0 as [|x s0].
      + cbn [lazy_run]. apply orelse_none.
      + cbn [lazy_run]. destruct (f x); [|reflexivity].
        replace (length s0 <? length (x :: s0)) with true
          by (symmetry; apply Nat.ltb_lt; simpl; lia).
        rewrite IH by (simpl in Hn; lia). reflexivity. }
  apply A. lia.
Qed.

Lemma one_char_neg_delim :
  one_char (Re.Group (Re.Cat (Re.Set_ true (L "-,;/")) Re.Eps))
           (fun x => negb (is_delim x)).
Proof.
  intros s k. cbn [Re.rmatch]. destruct s as [|x s]; [reflexivity|].
  now rewrite delim_class.
Qed.

Lemma one_char_neg_closer :
  one_char (Re.Set_ true (L ")]")) (fun x => negb (is_closer x)).
Proof.
  intros s k. cbn [Re.rmatch]. destruct s as [|x s]; [reflexivity|].
  now rewrite closer_class.
Qed.

Lemma one_char_dot : one_char Re.Dot (fun x => negb (Re.is_newline x)).
Proof.
  intros s k. cbn [Re.rmatch]. destruct s as [|x s]; [reflexivity|].
  now destruct (Re.is_newline x).
Qed.

(** *** The pattern [after_delimiter] *)

Lemma greedy_dot (s : str) :
  greedy_run (fun x => negb (Re.is_newline x)) (fun e => Some e) s = Some (skip_line s).
Proof.
  induction s as [|x s IH]; [reflexivity|].
  cbn [greedy_run skip_line]. destruct (Re.is_newline x); [reflexivity|].
  cbn [negb]. now rewrite IH.
Qed.

Lemma rmatch_Cat (r1 r2 : Re.regex) (s : str) (k : str -> option str) :
  Re.rmatch true (Re.Cat r1 r2) s k
  = Re.rmatch true r1 s (fun s1 => Re.rmatch true r2 s1 k).
Proof. reflexivity. Qed.

Lemma rmatch_Group (r : Re.regex) (s : str) (k : str -> option str) :
  Re.rmatch true (Re.Group r) s k = Re.rmatch true r s k.
Proof. reflexivity. Qed.

Lemma rmatch_Set (neg : bool) (cs : list ascii) (s : str) (k : str -> option str) :
  Re.rmatch true (Re.Set_ neg cs) s k
  = match s with
    | x :: s' => if xorb neg (existsb (fun c => Re.chr_eq true c x) cs) then k s' else None
    | [] => None
    end.
Proof. reflexivity. Qed.

Lemma try_words_ext (ws : list str) (s : str) (k k' : str -> option str) :
  (forall r, k r = k' r) -> try_words ws s k = try_words ws s k'.
Proof.
  intros H. induction ws as [|w ws IH]; [reflexivity|].
  cbn [try_words]. rewrite IH. destruct (ci_strip w s); [now rewrite H | reflexivity].
Qed.

Lemma greedy_run_ext (f : ascii -> bool) (k k' : str -> option str) (s : str) :
  (forall r, k r = k' r) -> greedy_run f k s = greedy_run f k' s.
Proof.
  intros H. induction s as [|x s IH]; cbn [greedy_run]; [apply H|].
  now rewrite IH, H.
Qed.

Lemma lazy_run_ext (f : ascii -> bool) (k k' : str -> option str) (s : str) :
  (forall r, k r = k' r) -> lazy_run f k s = lazy_run f k' s.
Proof.
  intros H. induction s as [|x s IH]; cbn [lazy_run]; [apply H|].
  now rewrite IH, H.
Qed.

Lemma delim_tail_match (ws : list str) (s : str) :
  Re.rmatch true
    (Re.Cat (Re.Group (words_regex ws)) (Re.Cat (Re.Star true Re.Dot) Re.Eps))
    s (fun e => Some e)
  = word_tail (eff_words ws) s.
Proof.
  rewrite rmatch_Cat, rmatch_Group, rmatch_words. unfold word_tail.
  apply try_words_ext. intros r.
  rewrite rmatch_Cat, (star_greedy _ _ one_char_dot).
  change (fun s1 => Re.rmatch true Re.Eps s1 (fun e => Some e)) with (fun e : str => Some e).
  apply greedy_dot.
Qed.

Lemma delim_match (ws : list str) (s : str) :
  Re.match_here (delim_pattern ws) s = delim_at ws s.
Proof.
  unfold Re.match_here, delim_pattern, delim_tree. cbn [Re.tree Re.ignorecase].
  rewrite rmatch_Cat, rmatch_Group, rmatch_Cat, rmatch_Set.
  destruct s as [|d t]; [reflexivity|].
  rewrite delim_class. cbn [xorb delim_at]. destruct (is_delim d); [|reflexivity].
  change (Re.rmatch true Re.Eps t ?k) with (k t). cbv beta.
  rewrite rmatch_Cat, (star_greedy _ _ one_char_neg_delim).
  apply greedy_run_ext. intros r. apply delim_tail_match.
Qed.

(** *** The pattern [inside_brackets] *)

Lemma lazy_to_closer (s : str) :
  lazy_run (fun x => negb (is_closer x)) closer_here s = to_closer s.
Proof.
  induction s as [|x s IH]; [reflexivity|].
  cbn [lazy_run to_closer closer_here]. destruct (is_closer x); [reflexivity|].
  cbn [negb Re.orelse]. exact IH.
Qed.

Lemma bracket_match_raw (ws : list str) (s : str) :
  Re.match_here (bracket_pattern ws) s = bracket_raw ws s.
Proof.
  unfold Re.match_here, bracket_pattern, bracket_tree. cbn [Re.tree Re.ignorecase].
  rewrite rmatch_Cat, rmatch_Group, rmatch_Cat, rmatch_Set.
  destruct s as [|o t]; [reflexivity|].
  rewrite opener_class. cbn [xorb bracket_raw]. destruct (is_opener o); [|reflexivity].
  rewrite rmatch_Cat, (star_lazy _ _ one_char_neg_closer).
  apply lazy_run_ext. intros r.
  rewrite rmatch_Cat, rmatch_Group, rmatch_words.
  apply try_words_ext. intros r2.
  rewrite rmatch_Cat, (star_lazy _ _ one_char_neg_closer).
  rewrite <- lazy_to_closer. apply lazy_run_ext. intros r3.
  rewrite rmatch_Cat, rmatch_Set. destruct r3 as [|x r3]; [reflexivity|].
  now rewrite closer_class.
Qed.

Lemma plain_eff_words (ws : list str) :
  plain_words ws = true -> plain_words (eff_words ws) = true.
Proof. destruct ws; auto. Qed.

Lemma ci_strip_closer (w s r : str) :
  plain_word w = true -> ci_strip w s = Some r -> to_closer r = to_closer s.
Proof.
  revert s. induction w as [|c w IH]; intros s Hw H.
  - now injection H as ->.
  - simpl in Hw. apply andb_prop in Hw. destruct Hw as [Hc Hw].
    apply negb_true_iff in Hc.
    destruct s as [|x s]; [discriminate|]. cbn [ci_strip] in H.
    destruct (Re.chr_eq true c x) eqn:E; [|discriminate].
    cbn [to_closer]. rewrite (plain_not_closer c x Hc E). now apply IH.
Qed.

Lemma starts_with_seg (w s : str) :
  plain_word w = true -> starts_with w (seg s) = starts_with w s.
Proof.
  unfold starts_with. revert s. induction w as [|c w IH]; intros s Hw.
  - reflexivity.
  - simpl in Hw. apply andb_prop in Hw. destruct Hw as [Hc Hw].
    apply negb_true_iff in Hc.
    destruct s as [|x s]; [reflexivity|]. cbn [seg].
    destruct (is_closer x) eqn:Ex.
    + cbn [ci_strip]. destruct (Re.chr_eq true c x) eqn:E; [|reflexivity].
      rewrite (plain_not_closer c x Hc E) in Ex. discriminate.
    + cbn [ci_strip]. destruct (Re.chr_eq true c x); [now apply IH | reflexivity].
Qed.

Lemma word_here_seg (ws : list str) (s : str) :
  plain_words ws = true -> word_here ws (seg s) = word_here ws s.
Proof.
  unfold word_here. induction ws as [|w ws IH]; intros H; [reflexivity|].
  simpl in H. apply andb_prop in H. destruct H as [Hw Hws].
  cbn [existsb]. now rewrite (starts_with_seg w s Hw), IH.
Qed.

Lemma try_words_closer (ws : list str) (s : str) :
  plain_words ws = true ->
  try_words ws s to_closer = if word_here ws s then to_closer s else None.
Proof.
  unfold word_here. induction ws as [|w ws IH]; intros H; [reflexivity|].
  simpl in H. apply andb_prop in H. destruct H as [Hw Hws].
  cbn [try_words existsb]. rewrite (IH Hws).
  assert (Hs : starts_with w s = match ci_strip w s with Some _ => true | None => false end)
    by reflexivity.
  destruct (ci_strip w s) as [r|] eqn:E; rewrite Hs.
  - rewrite (ci_strip_closer w s r Hw E). cbn [orb].
    destruct (to_closer s); [reflexivity|]. cbn [Re.orelse].
    now destruct (existsb _ ws).
  - reflexivity.
Qed.

Lemma lazy_scan (ws : list str) (t : str) :
  plain_words ws = true ->
  lazy_run (fun x => negb (is_closer x)) (fun s1 => try_words ws s1 to_closer) t
  = if occurs ws (seg t) then to_closer t else None.
Proof.
  intros H. induction t as [|x t IH].
  - cbn [lazy_run seg to_closer]. rewrite (try_words_closer ws [] H).
    cbn [to_closer]. now destruct (word_here ws []), (occurs ws []).
  - cbn [lazy_run]. rewrite (try_words_closer ws (x :: t) H), IH.
    rewrite <- (word_here_seg ws (x :: t) H). cbn [seg to_closer].
    destruct (is_closer x).
    + cbn [occurs negb]. rewrite orb_false_r.
      now destruct (word_here ws []).
    + cbn [occurs negb].
      destruct (word_here ws (x :: seg t)), (occurs ws (seg t)), (to_closer t);
        reflexivity.
Qed.

Lemma bracket_match (ws : list str) (s : str) :
  plain_words ws = true ->
  Re.match_here (bracket_pattern ws) s = bracket_at (eff_words ws) s.
Proof.
  intros H. rewrite bracket_match_raw. destruct s as [|o t]; [reflexivity|].
  cbn [bracket_raw bracket_at]. destruct (is_opener o); [|reflexivity].
  cbn [andb]. apply lazy_scan, plain_eff_words, H.
Qed.

(** *** Shape of the matches *)

Lemma to_closer_split (s e : str) :
  to_closer s = Some e -> exists c, s = seg s ++ c :: e /\ is_closer c = true.
Proof.
  induction s as [|x s IH]; [discriminate|]. cbn [to_closer seg].
  destruct (is_closer x) eqn:E.
  - intros [= ->]. now exists x.
  - intros H. destruct (IH H) as (c & Hs & Hc). exists c. split; [|exact Hc].
    cbn [app]. now rewrite <- Hs.
Qed.

Lemma to_closer_app (s e y : str) :
  to_closer s = Some e -> to_closer (s ++ y) = Some (e ++ y) /\ seg (s ++ y) = seg s.
Proof.
  induction s as [|x s IH]; [discriminate|]. cbn [to_closer seg app].
  destruct (is_closer x).
  - intros [= ->]. auto.
  - intros H. destruct (IH H) as [A B]. now rewrite A, B.
Qed.

Lemma to_closer_none (s : str) :
  to_closer s = None <-> Forall (fun x => is_closer x = false) s.
Proof.
  induction s as [|x s IH]; cbn [to_closer].
  - split; [constructor | reflexivity].
  - destruct (is_closer x) eqn:E.
    + split; [discriminate|]. intros H. inversion H; subst. congruence.
    + rewrite IH. split; [now constructor | intros H; now inversion H].
Qed.

Lemma bracket_consumes (ws : list str) (s e : str) :
  bracket_at ws s = Some e -> exists pre, pre <> [] /\ s = pre ++ e.
Proof.
  destruct s as [|o t]; [discriminate|]. cbn [bracket_at].
  destruct (is_opener o && occurs ws (seg t)); [|discriminate].
  intros H. destruct (to_closer_split t e H) as (c & Ht & _).
  exists (o :: seg t ++ [c]). split; [discriminate|].
  cbn [app]. rewrite <- app_assoc. cbn [app]. now rewrite <- Ht.
Qed.

Lemma bracket_mono (ws : list str) (x y : str) :
  bracket_at ws x <> None -> bracket_at ws (x ++ y) <> None.
Proof.
  destruct x as [|o t]; [intros H; now contradiction H|]. cbn [bracket_at app].
  destruct (to_closer t) as [e|] eqn:E.
  - destruct (to_closer_app t e y E) as [A B]. rewrite A, B.
    destruct (is_opener o && occurs ws (seg t)); [discriminate | auto].
  - destruct (is_opener o && occurs ws (seg t)); intros H; now contradiction H.
Qed.

(** ** Removing the bracketed segments leaves none behind *)

Section Brackets.

Variable ws : list str.
Hypothesis ws_plain : plain_words ws = true.

Local Abbreviation pB := (bracket_pattern ws).

Lemma pB_consumes (s e : str) :
  Re.match_here pB s = Some e -> exists pre, pre <> [] /\ s = pre ++ e.
Proof. rewrite (bracket_match ws s ws_plain). apply bracket_consumes. Qed.

Lemma pB_mono (x y : str) :
  Re.match_here pB x <> None -> Re.match_here pB (x ++ y) <> None.
Proof.
  rewrite !(bracket_match ws _ ws_plain). apply bracket_mono.
Qed.

Lemma occurs_tail (l : list str) (x : ascii) (a : str) :
  occurs l (x :: a) = false -> occurs l a = false.
Proof. cbn [occurs]. intros H. now apply orb_false_elim in H. Qed.

Lemma seg_sub (s : str) :
  occurs (eff_words ws) (seg s) = false -> seg (Re.sub pB [] s) = seg s.
Proof.
  induction s as [|x s IH]; intros H.
  - now rewrite (sub_nil pB pB_consumes).
  - assert (N : Re.match_here pB (x :: s) = None).
    { rewrite (bracket_match ws _ ws_plain). cbn [bracket_at].
      cbn [seg] in H. destruct (is_closer x) eqn:E.
      - now rewrite (closer_not_opener x E).
      - apply occurs_tail in H. rewrite H. now rewrite andb_false_r. }
    rewrite (sub_none pB x s N). cbn [seg] in *.
    destruct (is_closer x); [reflexivity|].
    f_equal. apply IH. now apply occurs_tail in H.
Qed.

Lemma bracket_clean (s : str) : clean pB (Re.sub pB [] s).
Proof.
  remember (length s) as n eqn:Hn. revert s Hn.
  induction n as [n IH] using lt_wf_ind. intros s Hn.
  destruct s as [|c s].
  - rewrite (sub_nil pB pB_consumes). intros x [pre Hx].
    symmetry in Hx. apply app_eq_nil in Hx. destruct Hx as [_ ->].
    apply (match_nil pB pB_consumes).
  - destruct (Re.match_here pB (c :: s)) as [e|] eqn:E.
    + rewrite (sub_some pB pB_consumes _ _ E).
      destruct (pB_consumes _ _ E) as (pre & Hne & Hs).
      apply (IH (length e)); [|reflexivity].
      subst n. rewrite Hs, length_app. destruct pre; [contradiction | simpl; lia].
    + rewrite (sub_none pB c s E). intros x Hx.
      apply suffix_of_cons_inv in Hx. destruct Hx as [-> | Hx].
      * rewrite (bracket_match ws _ ws_plain) in E.
        rewrite (bracket_match ws _ ws_plain). cbn [bracket_at] in E |- *.
        destruct (is_opener c); [|reflexivity]. cbn [andb] in E |- *.
        destruct (occurs (eff_words ws) (seg s)) eqn:O.
        -- cbv iota in E. rewrite to_closer_none in E.
           assert (T : to_closer (Re.sub pB [] s) = None).
           { apply to_closer_none. apply (sub_Forall pB pB_consumes). exact E. }
           rewrite T.
           match goal with |- (if ?b then _ else _) = _ => destruct b end; reflexivity.
        -- now rewrite (seg_sub s O), O.
      * apply (IH (length s)) with (s := s); [subst n; simpl; lia | reflexivity | exact Hx].
Qed.

End Brackets.

(** ** The delimiter pattern *)

Section Delimiter.

Variable ws : list str.

Local Abbreviation pD := (delim_pattern ws).

Lemma ci_strip_suffix (w s r : str) : ci_strip w s = Some r -> suffix_of r s.
Proof.
  revert s. induction w as [|c w IH]; intros s H.
  - injection H as ->. apply suffix_of_refl.
  - destruct s as [|x s]; [discriminate|]. cbn [ci_strip] in H.
    destruct (Re.chr_eq true c x); [|discriminate].
    apply suffix_of_cons. now apply IH.
Qed.

Lemma skip_line_suffix (s : str) : suffix_of (skip_line s) s.
Proof.
  induction s as [|x s IH]; cbn [skip_line]; [apply suffix_of_refl|].
  destruct (Re.is_newline x); [apply suffix_of_refl | now apply suffix_of_cons].
Qed.

Lemma skip_line_nil (s : str) : no_newline s -> skip_line s = [].
Proof.
  induction 1 as [|x s Hx _ IH]; cbn [skip_line]; [reflexivity|]. now rewrite Hx.
Qed.

Lemma no_newline_suffix (x s : str) : suffix_of x s -> no_newline s -> no_newline x.
Proof. intros [pre ->] H. now apply Forall_app in H. Qed.

Lemma word_tail_some (l : list str) (s e : str) :
  word_tail l s = Some e -> exists r, suffix_of r s /\ e = skip_line r.
Proof.
  unfold word_tail. induction l as [|w l IH]; [discriminate|].
  cbn [try_words]. destruct (ci_strip w s) as [r|] eqn:E.
  - cbn [Re.orelse]. intros [= <-]. exists r. split; [|reflexivity].
    now apply ci_strip_suffix with (w := w).
  - exact IH.
Qed.

Lemma word_tail_word_here (l : list str) (s : str) :
  word_tail l s <> None <-> word_here l s = true.
Proof.
  unfold word_tail, word_here. induction l as [|w l IH]; cbn [try_words existsb].
  - split; [intros H; now contradiction H | discriminate].
  - unfold starts_with at 1. destruct (ci_strip w s).
    + cbn [Re.orelse orb]. split; [reflexivity | discriminate].
    + exact IH.
Qed.

Lemma ci_strip_app (w s r y : str) :
  ci_strip w s = Some r -> ci_strip w (s ++ y) = Some (r ++ y).
Proof.
  revert s. induction w as [|c w IH]; intros s H.
  - now injection H as ->.
  - destruct s as [|x s]; [discriminate|]. cbn [ci_strip app] in *.
    destruct (Re.chr_eq true c x); [now apply IH | discriminate].
Qed.

Lemma word_here_app (l : list str) (s y : str) :
  word_here l s = true -> word_here l (s ++ y) = true.
Proof.
  unfold word_here. rewrite !existsb_exists. intros (w & Hin & Hw).
  exists w. split; [exact Hin|]. unfold starts_with in *.
  destruct (ci_strip w s) as [r|] eqn:E; [|discriminate].
  now rewrite (ci_strip_app w s r y E).
Qed.

Lemma greedy_run_some (f : ascii -> bool) (k : str -> option str) (t e : str) :
  greedy_run f k t = Some e -> exists a, suffix_of a t /\ k a = Some e.
Proof.
  induction t as [|x t IH]; cbn [greedy_run].
  - intros H. exists []. split; [apply suffix_of_refl | exact H].
  - destruct (f x).
    + destruct (greedy_run f k t) as [e'|] eqn:G; cbn [Re.orelse].
      * intros [= ->]. destruct (IH eq_refl) as (a & Ha & Hk).
        exists a. split; [now apply suffix_of_cons | exact Hk].
      * intros H. exists (x :: t). split; [apply suffix_of_refl | exact H].
    + intros H. exists (x :: t). split; [apply suffix_of_refl | exact H].
Qed.

Lemma greedy_run_here (f : ascii -> bool) (k : str -> option str) (t : str) :
  k t <> None -> greedy_run f k t <> None.
Proof.
  destruct t as [|x t]; cbn [greedy_run]; [auto|].
  destruct (f x); [|auto]. destruct (greedy_run f k t); cbn [Re.orelse]; [discriminate | auto].
Qed.

Lemma greedy_run_app (f : ascii -> bool) (k : str -> option str) (t y : str) :
  (forall a, k a <> None -> k (a ++ y) <> None) ->
  greedy_run f k t <> None -> greedy_run f k (t ++ y) <> None.
Proof.
  intros Hk. induction t as [|x t IH]; cbn [greedy_run app].
  - intros H. apply greedy_run_here. now apply (Hk []).
  - destruct (f x).
    + destruct (greedy_run f k t) eqn:G; cbn [Re.orelse].
      * intros _. destruct (greedy_run f k (t ++ y)); [discriminate|].
        exfalso. now apply IH.
      * intros H. apply (Hk (x :: t)) in H. cbn [app] in H.
        destruct (greedy_run f k (t ++ y)); [discriminate | exact H].
    + intros H. now apply (Hk (x :: t)) in H.
Qed.

Lemma delim_consumes (s e : str) :
  delim_at ws s = Some e -> exists pre, pre <> [] /\ s = pre ++ e.
Proof.
  destruct s as [|d t]; [discriminate|]. cbn [delim_at].
  destruct (is_delim d); [|discriminate]. intros H.
  apply greedy_run_some in H. destruct H as (a & Ha & Hk).
  apply word_tail_some in Hk. destruct Hk as (r & Hr & ->).
  assert (S : suffix_of (skip_line r) t).
  { eapply suffix_of_trans; [apply skip_line_suffix|].
    eapply suffix_of_trans; eassumption. }
  destruct S as [pre ->]. exists (d :: pre). split; [discriminate | reflexivity].
Qed.

Lemma delim_mono (x y : str) :
  delim_at ws x <> None -> delim_at ws (x ++ y) <> None.
Proof.
  destruct x as [|d t]; [intros H; now contradiction H|]. cbn [delim_at app].
  destruct (is_delim d); [|auto].
  apply greedy_run_app. intros a. rewrite !word_tail_word_here. apply word_here_app.
Qed.

(** On one line the match runs to the end of the text. *)
Lemma delim_to_end (s e : str) :
  no_newline s -> delim_at ws s = Some e -> e = [].
Proof.
  intros Hs. destruct s as [|d t]; [discriminate|]. cbn [delim_at].
  destruct (is_delim d); [|discriminate]. intros H.
  apply greedy_run_some in H. destruct H as (a & Ha & Hk).
  apply word_tail_some in Hk. destruct Hk as (r & Hr & ->).
  apply skip_line_nil. eapply no_newline_suffix; [exact Hr|].
  eapply no_newline_suffix; [exact Ha|]. now inversion Hs.
Qed.

Lemma pD_consumes (s e : str) :
  Re.match_here pD s = Some e -> exists pre, pre <> [] /\ s = pre ++ e.
Proof. rewrite delim_match. apply delim_consumes. Qed.

Lemma pD_mono (x y : str) :
  Re.match_here pD x <> None -> Re.match_here pD (x ++ y) <> None.
Proof. rewrite !delim_match. apply delim_mono. Qed.

(** On one line the pattern cuts the text at the first match. *)
Lemma delim_sub_prefix (s : str) :
  no_newline s ->
  exists post, s = Re.sub pD [] s ++ post /\ clean pD (Re.sub pD [] s).
Proof.
  induction s as [|c s IH]; intros Hs.
  - exists []. rewrite (sub_nil pD pD_consumes). split; [reflexivity|].
    intros x [pre Hx]. symmetry in Hx. apply app_eq_nil in Hx. destruct Hx as [_ ->].
    apply (match_nil pD pD_consumes).
  - destruct (Re.match_here pD (c :: s)) as [e|] eqn:E.
    + rewrite (sub_some pD pD_consumes _ _ E).
      assert (e = []) as ->.
      { rewrite delim_match in E. now apply delim_to_end in E. }
      rewrite (sub_nil pD pD_consumes). exists (c :: s). split; [reflexivity|].
      intros x [pre Hx]. symmetry in Hx. apply app_eq_nil in Hx. destruct Hx as [_ ->].
      apply (match_nil pD pD_consumes).
    + rewrite (sub_none pD c s E).
      destruct IH as (post & Hpost & Hclean); [now inversion Hs|].
      exists post. split; [cbn [app]; now rewrite <- Hpost|].
      intros x Hx. apply suffix_of_cons_inv in Hx. destruct Hx as [-> | Hx].
      * destruct (Re.match_here pD (c :: Re.sub pD [] s)) eqn:M; [|reflexivity].
        exfalso. apply (pD_mono (c :: Re.sub pD [] s) post); [congruence|].
        cbn [app]. now rewrite <- Hpost.
      * now apply Hclean.
Qed.

End Delimiter.

(** ** Sanitizing *)

Lemma sanitize_plain (c : config) (self : Py3status) (s : str) :
  plain_words (sanitize_words c) = true ->
  post_config_hook c = Re.Ok self ->
  sanitize self s
  = strip (Re.sub (delim_pattern (sanitize_words c)) []
             (Re.sub (bracket_pattern (sanitize_words c)) [] s)).
Proof.
  intros Hp Hc. rewrite (post_config_hook_plain c Hp) in Hc.
  injection Hc as <-. reflexivity.
Qed.

Lemma clean_fixed (ws : list str) (s : str) :
  plain_words ws = true ->
  clean (bracket_pattern ws) s -> clean (delim_pattern ws) s ->
  strip (Re.sub (delim_pattern ws) [] (Re.sub (bracket_pattern ws) [] s)) = strip s.
Proof.
  intros Hp HB HD.
  rewrite (sub_clean (bracket_pattern ws) (pB_consumes ws Hp) s HB).
  now rewrite (sub_clean (delim_pattern ws) (pD_consumes ws) s HD).
Qed.

Lemma one_line_idempotent (ws : list str) (s : str) :
  plain_words ws = true -> no_newline s ->
  let f := fun t => strip (Re.sub (delim_pattern ws) [] (Re.sub (bracket_pattern ws) [] t)) in
  f (f s) = f s.
Proof.
  intros Hp Hs f. unfold f.
  set (t := Re.sub (bracket_pattern ws) [] s).
  assert (Ht : no_newline t) by (apply (sub_Forall _ (pB_consumes ws Hp)); exact Hs).
  assert (Bt : clean (bracket_pattern ws) t) by apply (bracket_clean ws Hp).
  destruct (delim_sub_prefix ws t Ht) as (post & Hpost & Du).
  set (u := Re.sub (delim_pattern ws) [] t) in *.
  assert (Bu : clean (bracket_pattern ws) u).
  { apply (clean_prefix _ (pB_mono ws Hp) u post). now rewrite <- Hpost. }
  destruct (strip_infix u) as (l & r & Hu).
  assert (Bv : clean (bracket_pattern ws) (strip u)).
  { apply (clean_infix _ (pB_mono ws Hp) l (strip u) r). now rewrite <- Hu. }
  assert (Dv : clean (delim_pattern ws) (strip u)).
  { apply (clean_infix _ (pD_mono ws) l (strip u) r). now rewrite <- Hu. }
  rewrite (clean_fixed ws (strip u) Hp Bv Dv). apply strip_idem.
Qed.

(** *** Texts without a word *)

Lemma occurs_suffix (ws : list str) (x s : str) :
  suffix_of x s -> occurs ws x = true -> occurs ws s = true.
Proof.
  intros [pre ->] H. induction pre as [|c pre IH]; [exact H|].
  cbn [app occurs]. rewrite IH. apply orb_true_r.
Qed.






(** *** Segments that are removed *)

Lemma lacks_Forall (f : ascii -> bool) (u : str) :
  lacks f u = true <-> Forall (fun x => f x = false) u.
Proof.
  unfold lacks. rewrite forallb_forall, Forall_forall.
  split; intros H x Hx; specialize (H x Hx); now destruct (f x).
Qed.

Lemma lacks_app (f : ascii -> bool) (u v : str) :
  lacks f (u ++ v) = lacks f u && lacks f v.
Proof. apply forallb_app. Qed.

Lemma sub_bracket_skip (ws : list str) (t rest : str) :
  plain_words ws = true -> lacks is_opener t = true ->
  Re.sub (bracket_pattern ws) [] (t ++ rest) = t ++ Re.sub (bracket_pattern ws) [] rest.
Proof.
  intros Hp. induction t as [|x t IH]; intros Ht; [reflexivity|].
  cbn [lacks forallb] in Ht. apply andb_prop in Ht. destruct Ht as [Hx Ht].
  apply negb_true_iff in Hx. cbn [app]. rewrite sub_none.
  - f_equal. now apply IH.
  - rewrite (bracket_match ws _ Hp). cbn [bracket_at].
    now rewrite Hx.
Qed.

Lemma sub_delim_skip (ws : list str) (t rest : str) :
  lacks is_delim t = true ->
  Re.sub (delim_pattern ws) [] (t ++ rest) = t ++ Re.sub (delim_pattern ws) [] rest.
Proof.
  induction t as [|x t IH]; intros Ht; [reflexivity|].
  cbn [lacks forallb] in Ht. apply andb_prop in Ht. destruct Ht as [Hx Ht].
  apply negb_true_iff in Hx. cbn [app]. rewrite sub_none.
  - f_equal. now apply IH.
  - rewrite delim_match. cbn [delim_at]. now rewrite Hx.
Qed.

Lemma sub_bracket_none (ws : list str) (t : str) :
  plain_words ws = true -> lacks is_opener t = true ->
  Re.sub (bracket_pattern ws) [] t = t.
Proof.
  intros Hp Ht. rewrite <- (app_nil_r t) at 1. rewrite (sub_bracket_skip ws t [] Hp Ht).
  now rewrite (sub_nil _ (pB_consumes ws Hp)), app_nil_r.
Qed.

Lemma sub_delim_none (ws : list str) (t : str) :
  lacks is_delim t = true -> Re.sub (delim_pattern ws) [] t = t.
Proof.
  intros Ht. rewrite <- (app_nil_r t) at 1. rewrite (sub_delim_skip ws t [] Ht).
  now rewrite (sub_nil _ (pD_consumes ws)), app_nil_r.
Qed.

Lemma seg_closer (u : str) (c : ascii) (z : str) :
  lacks is_closer u = true -> is_closer c = true ->
  seg (u ++ c :: z) = u /\ to_closer (u ++ c :: z) = Some z.
Proof.
  intros Hu Hc. induction u as [|x u IH]; cbn [app seg to_closer].
  - now rewrite Hc.
  - cbn [lacks forallb] in Hu. apply andb_prop in Hu. destruct Hu as [Hx Hu].
    apply negb_true_iff in Hx. rewrite Hx. destruct (IH Hu) as [A B].
    now rewrite A, B.
Qed.

Lemma word_here_occurs (ws : list str) (a r : str) :
  word_here ws r = true -> occurs ws (a ++ r) = true.
Proof.
  intros H. apply (occurs_suffix ws r (a ++ r)); [now exists a|].
  destruct r; cbn [occurs]; now rewrite H.
Qed.

Lemma In_word_here (ws : list str) (w X y : str) :
  In w ws -> starts_with w X = true -> word_here ws (X ++ y) = true.
Proof.
  intros Hin HX. unfold word_here. apply existsb_exists. exists w.
  split; [exact Hin|]. unfold starts_with in *.
  destruct (ci_strip w X) as [r|] eqn:E; [|discriminate].
  now rewrite (ci_strip_app w X r y E).
Qed.

Lemma In_eff_words (ws : list str) (w : str) : In w ws -> eff_words ws = ws.
Proof. destruct ws; [contradiction | reflexivity]. Qed.

(** A bracketed segment that holds a word goes. *)
Lemma bracket_segment (ws : list str) (w t a X y z : str) (o cl : ascii) :
  plain_words ws = true -> In w ws -> starts_with w X = true ->
  lacks is_opener t = true -> lacks is_opener z = true ->
  is_opener o = true -> is_closer cl = true ->
  lacks is_closer (a ++ X ++ y) = true ->
  Re.sub (bracket_pattern ws) [] (t ++ o :: (a ++ X ++ y) ++ cl :: z) = t ++ z.
Proof.
  intros Hp Hin HX Ht Hz Ho Hcl Hin'.
  rewrite (sub_bracket_skip ws t _ Hp Ht). f_equal.
  destruct (seg_closer (a ++ X ++ y) cl z Hin' Hcl) as [A B].
  rewrite (sub_some (bracket_pattern ws) (pB_consumes ws Hp) _ z).
  - now apply sub_bracket_none.
  - rewrite (bracket_match ws _ Hp). cbn [bracket_at].
    rewrite Ho, A, B, (In_eff_words ws w Hin).
    rewrite (word_here_occurs ws a (X ++ y) (In_word_here ws w X y Hin HX)).
    reflexivity.
Qed.

Lemma greedy_run_reach (f : ascii -> bool) (k : str -> option str) (a r : str) :
  lacks (fun x => negb (f x)) a = true -> k r <> None -> greedy_run f k (a ++ r) <> None.
Proof.
  intros Ha Hk. induction a as [|x a IH]; cbn [app].
  - now apply greedy_run_here.
  - cbn [lacks forallb] in Ha. apply andb_prop in Ha. destruct Ha as [Hx Ha].
    rewrite negb_involutive in Hx. cbn [greedy_run]. rewrite Hx.
    destruct (greedy_run f k (a ++ r)) eqn:G; [discriminate|]. now apply IH in Ha.
Qed.

(** A delimiter followed on its line by a word cuts the text. *)
Lemma delim_segment (ws : list str) (w t a X y : str) (d : ascii) :
  In w ws -> starts_with w X = true ->
  lacks is_delim t = true -> is_delim d = true -> lacks is_delim a = true ->
  lacks Re.is_newline (d :: a ++ X ++ y) = true ->
  Re.sub (delim_pattern ws) [] (t ++ d :: a ++ X ++ y) = t.
Proof.
  intros Hin HX Ht Hd Ha Hnl.
  rewrite (sub_delim_skip ws t _ Ht). rewrite <- (app_nil_r t) at 2. f_equal.
  destruct (delim_at ws (d :: a ++ X ++ y)) as [e|] eqn:E.
  - assert (e = []) as ->.
    { apply (delim_to_end ws (d :: a ++ X ++ y)); [|exact E].
      now apply lacks_Forall. }
    rewrite (sub_some (delim_pattern ws) (pD_consumes ws) _ []).
    + apply (sub_nil _ (pD_consumes ws)).
    + now rewrite delim_match.
  - exfalso. cbn [delim_at] in E. rewrite Hd in E. revert E.
    apply greedy_run_reach.
    + unfold lacks in *. rewrite forallb_forall in *. intros x Hx.
      specialize (Ha x Hx). now rewrite negb_involutive.
    + apply word_tail_word_here. rewrite (In_eff_words ws w Hin).
      now apply In_word_here with (w := w).
Qed.

(** ** The time text *)

Lemma time_chars_no_subsecond (t : str) :
  Forall (fun c => time_char c = true) t -> no_subsecond t.
Proof.
  intros H Hin. rewrite Forall_forall in H. specialize (H _ Hin). discriminate.
Qed.

Lemma uint_chars (d : Decimal.uint) :
  Forall (fun c => time_char c = true) (list_ascii_of_string (NilEmpty.string_of_uint d)).
Proof. induction d; simpl; constructor; auto. Qed.

Lemma fmt_d_chars (z : Z) : Forall (fun c => time_char c = true) (Timedelta.fmt_d z).
Proof.
  unfold Timedelta.fmt_d, NilZero.string_of_int, NilZero.string_of_uint.
  destruct (Z.to_int z) as [d|d].
  - destruct d; try apply uint_chars. simpl. now constructor.
  - simpl. constructor; [reflexivity|].
    destruct d; try apply uint_chars. simpl. now constructor.
Qed.

Lemma digit_char (n : Z) :
  (0 <= n <= 9)%Z -> time_char (Timedelta.digit n) = true.
Proof.
  intros H. unfold Timedelta.digit.
  assert (A : forallb (fun k => time_char (ascii_of_nat (48 + k))) (seq 0 10) = true)
    by reflexivity.
  rewrite forallb_forall in A. apply A, in_seq. lia.
Qed.

Lemma fmt_02d_chars (n : Z) :
  (0 <= n < 100)%Z -> Forall (fun c => time_char c = true) (Timedelta.fmt_02d n).
Proof.
  intros H. unfold Timedelta.fmt_02d.
  repeat constructor; apply digit_char.
  - pose proof (Z.div_pos n 10). assert (n / 10 < 10)%Z by (apply Z.div_lt_upper_bound; lia). lia.
  - pose proof (Z.mod_pos_bound n 10). lia.
Qed.

Lemma L_app_chars (s : string) (t : str) :
  Forall (fun c => time_char c = true) (L s) ->
  Forall (fun c => time_char c = true) t ->
  Forall (fun c => time_char c = true) (L s ++ t).
Proof. intros A B. apply Forall_app. now split. Qed.

Lemma to_str_whole (td : Timedelta.timedelta) :
  Timedelta.to_str td
  = if (Timedelta.microseconds td =? 0)%Z then whole_part td
    else whole_part td ++ L "." ++ Timedelta.fmt_06d (Timedelta.microseconds td).
Proof. reflexivity. Qed.

Lemma whole_part_chars (td : Timedelta.timedelta) :
  Forall (fun c => time_char c = true) (whole_part td).
Proof.
  unfold whole_part.
  assert (B : Forall (fun c => time_char c = true)
                (Timedelta.fmt_d (Timedelta.seconds td / 60 / 60) ++ L ":"
                 ++ Timedelta.fmt_02d ((Timedelta.seconds td / 60) mod 60) ++ L ":"
                 ++ Timedelta.fmt_02d (Timedelta.seconds td mod 60))).
  { apply Forall_app. split; [apply fmt_d_chars|].
    apply L_app_chars; [now repeat constructor|].
    apply Forall_app. split.
    - apply fmt_02d_chars. pose proof (Z.mod_pos_bound (Timedelta.seconds td / 60) 60). lia.
    - apply L_app_chars; [now repeat constructor|].
      apply fmt_02d_chars. pose proof (Z.mod_pos_bound (Timedelta.seconds td) 60). lia. }
  destruct (Timedelta.days td =? 0)%Z; [exact B|].
  apply Forall_app. split; [apply fmt_d_chars|].
  apply L_app_chars; [now repeat constructor|].
  apply Forall_app. split.
  - destruct (Z.abs (Timedelta.days td) =? 1)%Z; now repeat constructor.
  - apply L_app_chars; [now repeat constructor | exact B].
Qed.

Lemma drop_last_chars (t : str) :
  Forall (fun c => time_char c = true) t ->
  Forall (fun c => time_char c = true) (drop_last 7 t).
Proof.
  intros H. unfold drop_last.
  rewrite <- (firstn_skipn (length t - 7) t) in H. now apply Forall_app in H.
Qed.

(** The slice never shows a fraction. *)
Lemma rtime_no_subsecond (us : Z) (t : str) :
  rtime_of (VInt us) = Return t -> no_subsecond t.
Proof.
  unfold rtime_of, Timedelta.py_timedelta, Timedelta.of_microseconds.
  destruct (Z.abs (us / 1000000 / 86400) <=? 999999999)%Z; [|discriminate].
  cbn [bind]. intros [= <-]. apply time_chars_no_subsecond.
  rewrite to_str_whole.
  destruct (Timedelta.microseconds _ =? 0)%Z.
  - apply drop_last_chars, whole_part_chars.
  - unfold drop_last. rewrite length_app.
    replace (length (whole_part _) + length (L "." ++ Timedelta.fmt_06d _) - 7)
      with (length (whole_part (Timedelta.TD (us / 1000000 / 86400)
                      ((us / 1000000) mod 86400) (us mod 1000000))) + 0)
      by (simpl; lia).
    rewrite firstn_app_2. cbn [firstn]. rewrite app_nil_r. apply whole_part_chars.
Qed.

(** ** Polling *)

Lemma read_track_fields (self : Py3status) (player : Interface) :
  read_track self player
  = (metadata <- Get player PLAYER (L "Metadata") ;;
     f <- track_fields self metadata ;;
     playback_status <- Get player PLAYER (L "PlaybackStatus") ;;
     stripped <- py_strip playback_status ;;
     Return {| t_album := fst (fst (fst f)); t_artist := snd (fst (fst f));
               t_rtime := snd (fst f); t_title := snd f;
               t_color := if py_eq_str stripped (L "Playing")
                          then color_playing self else color_paused self |}).
Proof.
  unfold read_track, track_fields, PLAYER.
  destruct (Get player _ (L "Metadata")) as [md|e]; [|reflexivity]. cbn [bind].
  destruct (py_get md (L "xesam:album")) as [al|e]; [|reflexivity]. cbn [bind].
  destruct (py_get md (L "xesam:artist")) as [ars|e]; [|reflexivity]. cbn [bind].
  destruct (py_first ars) as [ar|e]; [|reflexivity]. cbn [bind].
  destruct (py_get md (L "mpris:length")) as [mt|e]; [|reflexivity]. cbn [bind].
  destruct (rtime_of mt) as [rt|e]; [|reflexivity]. cbn [bind].
  destruct (py_get md (L "xesam:title")) as [ti|e]; [|reflexivity]. cbn [bind].
  destruct (sanitize_titles (cfg self)).
  - destruct (_sanitize_title self al) as [al'|e]; [|reflexivity]. cbn [bind].
    destruct (_sanitize_title self ti) as [ti'|e]; reflexivity.
  - reflexivity.
Qed.

(** The four ways a poll on a connected bus ends. *)
Lemma get_text_cases (self : Py3status) (w : dbus_world) (b : bus) :
  SessionBus w = Return b ->
  _get_text self w
  = match reach b with
    | Raise _ => Return (down_state self)
    | Return obj =>
        match read_track self (player_of obj) with
        | Raise _ => Return (stopped_state self)
        | Return t =>
            match safe_format (py3 (cfg self)) (format (cfg self)) (format_params t) with
            | Raise _ => Return (down_state self)
            | Return text => Return (text, t_color t)
            end
        end
    end.
Proof.
  intros Hb. unfold _get_text, poll_player. rewrite Hb. cbn [bind]. fold (reach b).
  destruct (reach b) as [obj|e]; [|reflexivity]. cbn [bind]. fold (player_of obj).
  destruct (read_track self (player_of obj)) as [t|e]; [|reflexivity].
  destruct (safe_format _ _ _); reflexivity.
Qed.

Lemma read_failure_raises (self : Py3status) (player : Interface) :
  read_failure self player -> exists e, read_track self player = Raise e.
Proof.
  intros F. rewrite read_track_fields.
  assert (T : forall md, (exists e, track_fields self md = Raise e) ->
              exists e, (f <- track_fields self md ;;
                         playback_status <- Get player PLAYER (L "PlaybackStatus") ;;
                         stripped <- py_strip playback_status ;;
                         Return {| t_album := fst (fst (fst f)); t_artist := snd (fst (fst f));
                                   t_rtime := snd (fst f); t_title := snd f;
                                   t_color := if py_eq_str stripped (L "Playing")
                                              then color_playing self else color_paused self |})
                        = Raise e).
  { intros md [e ->]. now exists e. }
  destruct F as [e H | md H N | md H M | md H M | md H M | md H S M | md H S M | e H | H].
  - rewrite H. now exists e.
  - rewrite H. cbn [bind]. apply T. unfold track_fields.
    destruct md; try (eexists; reflexivity). now contradiction (N d).
  - rewrite H. cbn [bind]. apply T. unfold track_fields, missing in *.
    destruct (py_get md (L "xesam:album")); [|eexists; reflexivity].
    cbn [bind]. rewrite M. eexists; reflexivity.
  - rewrite H. cbn [bind]. apply T. unfold track_fields.
    destruct (py_get md (L "xesam:album")); [|eexists; reflexivity].
    cbn [bind]. rewrite M. eexists; reflexivity.
  - rewrite H. cbn [bind]. apply T. unfold track_fields, missing in *.
    destruct (py_get md (L "xesam:album")); [|eexists; reflexivity]. cbn [bind].
    destruct (py_get md (L "xesam:artist")); [|eexists; reflexivity]. cbn [bind].
    destruct (py_first _); [|eexists; reflexivity]. cbn [bind].
    rewrite M. eexists; reflexivity.
  - rewrite H. cbn [bind]. apply T. unfold track_fields, missing in *.
    rewrite M, S. cbn [bind].
    destruct (py_get md (L "xesam:artist")); [|eexists; reflexivity]. cbn [bind].
    destruct (py_first _); [|eexists; reflexivity]. cbn [bind].
    destruct (py_get md (L "mpris:length")); [|eexists; reflexivity]. cbn [bind].
    destruct (rtime_of _); [|eexists; reflexivity]. cbn [bind].
    destruct (py_get md (L "xesam:title")); eexists; reflexivity.
  - rewrite H. cbn [bind]. apply T. unfold track_fields, missing in *.
    rewrite M, S.
    destruct (py_get md (L "xesam:album")) as [al|]; [|eexists; reflexivity]. cbn [bind].
    destruct (py_get md (L "xesam:artist")); [|eexists; reflexivity]. cbn [bind].
    destruct (py_first _); [|eexists; reflexivity]. cbn [bind].
    destruct (py_get md (L "mpris:length")); [|eexists; reflexivity]. cbn [bind].
    destruct (rtime_of _); [|eexists; reflexivity]. cbn [bind].
    destruct (_sanitize_title self al); eexists; reflexivity.
  - rewrite H.
    destruct (Get player PLAYER (L "Metadata")); [|eexists; reflexivity]. cbn [bind].
    destruct (track_fields self a); eexists; reflexivity.
  - rewrite H.
    destruct (Get player PLAYER (L "Metadata")); [|eexists; reflexivity]. cbn [bind].
    destruct (track_fields self a); eexists; reflexivity.
Qed.

Lemma hook_hooked (c : config) :
  plain_words (sanitize_words c) = true -> post_config_hook c = Re.Ok (hooked c).
Proof. apply post_config_hook_plain. Qed.

(** ** Properties of the module *)

(** C1 (counterexample): on a two-line title the second pass removes a
    bracket pair that the first pass left, so sanitizing twice differs
    from sanitizing once. *)
Lemma sanitize_twice_differs :
  post_config_hook (default_config (theme safe_format_spec)) = Re.Ok default_self
  /\ sanitize default_self (sanitize default_self two_line_title)
     <> sanitize default_self two_line_title.
Proof.
  split.
  - apply hook_hooked. reflexivity.
  - vm_compute. discriminate.
Qed.

(** C1 (amended): for plain sanitize words and a title without a newline,
    sanitizing twice equals sanitizing once. *)
Theorem sanitize_idempotent_on_one_line (c : config) (self : Py3status) (s : str) :
  plain_words (sanitize_words c) = true ->
  post_config_hook c = Re.Ok self ->
  lacks Re.is_newline s = true ->
  sanitize self (sanitize self s) = sanitize self s.
Proof.
  intros Hp Hc Hs.
  rewrite !(sanitize_plain c self _ Hp Hc).
  apply (one_line_idempotent (sanitize_words c) s Hp). now apply lacks_Forall.
Qed.

Lemma sanitize_idempotent_on_one_line_witness :
  plain_words (sanitize_words (default_config (theme safe_format_spec))) = true
  /\ post_config_hook (default_config (theme safe_format_spec)) = Re.Ok default_self
  /\ lacks Re.is_newline (L "Never Gonna Give You Up (Remastered 2017)") = true
  /\ sanitize default_self
       (sanitize default_self (L "Never Gonna Give You Up (Remastered 2017)"))
     = sanitize default_self (L "Never Gonna Give You Up (Remastered 2017)").
Proof.
  assert (H : post_config_hook (default_config (theme safe_format_spec)) = Re.Ok default_self)
    by (apply hook_hooked; reflexivity).
  split; [reflexivity|]. split; [exact H|]. split; [reflexivity|].
  apply (sanitize_idempotent_on_one_line
           (default_config (theme safe_format_spec)) default_self
           (L "Never Gonna Give You Up (Remastered 2017)"));
    [reflexivity | exact H | reflexivity].
Defined.




(** C7: with the word [remaster] configured, a bracketed segment and a
    segment behind a delimiter are removed whether they hold [Remastered]
    or [REMASTERED]. *)
Theorem sanitize_ignores_case (c : config) (self : Py3status)
  (X t a y z a' y' : str) (o cl d : ascii) :
  plain_words (sanitize_words c) = true ->
  In (L "remaster") (sanitize_words c) ->
  post_config_hook c = Re.Ok self ->
  X = L "Remastered" \/ X = L "REMASTERED" ->
  lacks is_opener t && lacks is_delim t = true ->
  lacks is_opener z && lacks is_delim z = true ->
  is_opener o = true -> is_closer cl = true ->
  lacks is_closer a && lacks is_closer y = true ->
  is_delim d = true ->
  lacks is_opener a' && lacks is_delim a' && lacks Re.is_newline a' = true ->
  lacks is_opener y' && lacks Re.is_newline y' = true ->
  sanitize self (t ++ o :: (a ++ X ++ y) ++ cl :: z) = strip (t ++ z)
  /\ sanitize self (t ++ d :: a' ++ X ++ y') = strip t.
Proof.
  intros Hp Hin Hc HX Ht Hz Ho Hcl Hay Hd Ha' Hy'.
  apply andb_prop in Ht. destruct Ht as [Ht1 Ht2].
  apply andb_prop in Hz. destruct Hz as [Hz1 Hz2].
  apply andb_prop in Hay. destruct Hay as [Ha Hy].
  apply andb_prop in Ha'. destruct Ha' as [Ha' Ha'3].
  apply andb_prop in Ha'. destruct Ha' as [Ha'1 Ha'2].
  apply andb_prop in Hy'. destruct Hy' as [Hy'1 Hy'2].
  assert (SX : starts_with (L "remaster") X = true) by (destruct HX as [-> | ->]; reflexivity).
  assert (CX : lacks is_closer X = true) by (destruct HX as [-> | ->]; reflexivity).
  assert (OX : lacks is_opener X = true) by (destruct HX as [-> | ->]; reflexivity).
  assert (NX : lacks Re.is_newline X = true) by (destruct HX as [-> | ->]; reflexivity).
  rewrite !(sanitize_plain c self _ Hp Hc). split.
  - rewrite (bracket_segment (sanitize_words c) (L "remaster") t a X y z o cl);
      try assumption.
    + rewrite sub_delim_none; [reflexivity|]. rewrite lacks_app. now rewrite Ht2, Hz2.
    + rewrite !lacks_app. now rewrite Ha, CX, Hy.
  - rewrite sub_bracket_none; [|assumption|].
    + rewrite (delim_segment (sanitize_words c) (L "remaster") t a' X y' d);
        try assumption; [reflexivity|].
      change (d :: a' ++ X ++ y') with ([d] ++ a' ++ X ++ y').
      rewrite !lacks_app. rewrite Ha'3, NX, Hy'2.
      assert (D : lacks Re.is_newline [d] = true).
      { revert Hd. cbn [lacks forallb]. rewrite andb_true_r.
        assert (A : forallb (fun d => implb (is_delim d) (negb (Re.is_newline d))) all_ascii
                    = true) by (vm_compute; reflexivity).
        intros E. generalize (forall_ascii _ A d). cbv beta. now rewrite E. }
      now rewrite D.
    + change (d :: a' ++ X ++ y') with ([d] ++ a' ++ X ++ y').
      rewrite !lacks_app. rewrite Ht1, Ha'1, OX, Hy'1.
      assert (D : lacks is_opener [d] = true).
      { revert Hd. cbn [lacks forallb]. rewrite andb_true_r.
        assert (A : forallb (fun d => implb (is_delim d) (negb (is_opener d))) all_ascii
                    = true) by (vm_compute; reflexivity).
        intros E. generalize (forall_ascii _ A d). cbv beta. now rewrite E. }
      now rewrite D.
Qed.

Lemma sanitize_ignores_case_witness :
  plain_words (sanitize_words (default_config (theme safe_format_spec))) = true
  /\ In (L "remaster") (sanitize_words (default_config (theme safe_format_spec)))
  /\ post_config_hook (default_config (theme safe_format_spec)) = Re.Ok default_self
  /\ sanitize default_self
       (L "Never Gonna Give You Up " ++ "("%char :: ([] ++ L "REMASTERED" ++ L " 2017")
          ++ ")"%char :: [])
     = strip (L "Never Gonna Give You Up " ++ [])
  /\ sanitize default_self
       (L "Never Gonna Give You Up " ++ "-"%char :: L " 2017 " ++ L "REMASTERED" ++ L " mix")
     = strip (L "Never Gonna Give You Up ").
Proof.
  assert (H : post_config_hook (default_config (theme safe_format_spec)) = Re.Ok default_self)
    by (apply hook_hooked; reflexivity).
  assert (I : In (L "remaster") (sanitize_words (default_config (theme safe_format_spec))))
    by (simpl; tauto).
  split; [reflexivity|]. split; [exact I|]. split; [exact H|].
  apply (sanitize_ignores_case (default_config (theme safe_format_spec)) default_self
           (L "REMASTERED") (L "Never Gonna Give You Up ") [] (L " 2017") []
           (L " 2017 ") (L " mix") "("%char ")"%char "-"%char);
    [reflexivity | exact I | exact H | right; reflexivity
     | reflexivity | reflexivity | reflexivity | reflexivity | reflexivity
     | reflexivity | reflexivity | reflexivity].
Defined.

(** The two examples of the module's description. *)
Lemma sanitize_examples :
  sanitize default_self (L "Never Gonna Give You Up (Remastered 2017)")
  = L "Never Gonna Give You Up"
  /\ sanitize default_self (L "Song Title - Radio Edit") = L "Song Title"
  /\ sanitize default_self (L "Title [REMASTERED]") = L "Title"
  /\ sanitize default_self (L "Title / remastered") = L "Title".
Proof. repeat split; vm_compute; reflexivity. Qed.

(** C2 (counterexample): the player object is reached and both
    properties are read, the formatter raises, and the poll answers with
    the down text and the offline colour; and when the session bus itself
    cannot be opened the poll answers with nothing, it raises. *)
Lemma render_error_gives_down :
  reach (bus_with (Return playing_player)) = Return playing_player
  /\ (exists t, read_track failing_self (player_of playing_player) = Return t)
  /\ _get_text failing_self (world_with (Return playing_player))
     = Return (L "MellowPlayer not running", Some (L "#FF0000"))
  /\ _get_text default_self {| SessionBus := Raise DBusException |}
     = Raise DBusException.
Proof.
  split; [reflexivity|]. split; [|split].
  - eexists. vm_compute. reflexivity.
  - vm_compute. reflexivity.
  - reflexivity.
Qed.

(** C2 (amended): on a connected session bus the poll answers with the
    down state when the player object cannot be reached and when the
    formatter raises after the reads went through; a failure of the reads
    gives the stopped state; otherwise the rendered text comes back with
    the colour chosen by the reads. *)
Theorem poll_tiers (self : Py3status) (w : dbus_world) (b : bus) :
  SessionBus w = Return b ->
  (forall e, reach b = Raise e -> _get_text self w = Return (down_state self))
  /\ (forall obj, reach b = Return obj ->
        (forall e, read_track self (player_of obj) = Raise e ->
                   _get_text self w = Return (stopped_state self))
        /\ (forall t, read_track self (player_of obj) = Return t ->
              (forall e, safe_format (py3 (cfg self)) (format (cfg self)) (format_params t)
                         = Raise e ->
                         _get_text self w = Return (down_state self))
              /\ (forall text,
                    safe_format (py3 (cfg self)) (format (cfg self)) (format_params t)
                    = Return text ->
                    _get_text self w = Return (text, t_color t)))).
Proof.
  intros Hb. rewrite (get_text_cases self w b Hb). split.
  - intros e ->. reflexivity.
  - intros obj ->. split.
    + intros e ->. reflexivity.
    + intros t ->. split.
      * intros e ->. reflexivity.
      * intros text ->. reflexivity.
Qed.

Lemma poll_tiers_witness :
  SessionBus (world_with (Raise DBusException)) = Return (bus_with (Raise DBusException))
  /\ _get_text default_self (world_with (Raise DBusException))
     = Return (down_state default_self).
Proof.
  split; [reflexivity|].
  apply (proj1 (poll_tiers default_self (world_with (Raise DBusException))
                  (bus_with (Raise DBusException)) eq_refl) DBusException).
  reflexivity.
Defined.

(** C3: a duration of 125,000,000 microseconds prints as [0:02:05], seven
    characters without a fraction, and the slice that is meant to drop the
    fraction leaves the empty text. *)
Theorem duration_125_seconds_time_text :
  Timedelta.py_timedelta (VInt 125000000) = Return (Timedelta.TD 0 125 0)
  /\ Timedelta.to_str (Timedelta.TD 0 125 0) = L "0:02:05"
  /\ rtime_of (VInt 125000000) = Return [].
Proof. repeat split; vm_compute; reflexivity. Qed.

(** C4 (counterexample): with sanitizing switched off a track without an
    album is rendered; the poll does not answer with the stopped state. *)
Lemma missing_album_is_rendered :
  missing (VDict (without (L "xesam:album") sample_metadata)) (L "xesam:album")
  /\ _get_text unsanitized_self
       (world_with (Return (player_object
          (Return (VDict (without (L "xesam:album") sample_metadata)))
          (Return (VStr (L "Playing"))))))
     = Return (L " - Never Gonna Give You Up (Remastered 2017)", Some (L "#00FF00"))
  /\ stopped_state unsanitized_self = (L "MellowPlayer stopped", Some (L "#FFFF00")).
Proof. repeat split; vm_compute; reflexivity. Qed.

(** C4 (amended): when the player object is reached and the reads fail in
    one of the listed ways (a property cannot be read, the metadata is not
    a map, the artist list is missing or empty, the length is missing, the
    album or the title is missing while sanitizing is on, the status is
    null), the poll answers with the stopped text and the paused colour. *)
Theorem stopped_on_read_failure (self : Py3status) (w : dbus_world) (b : bus)
  (obj : proxy_object) :
  SessionBus w = Return b ->
  reach b = Return obj ->
  read_failure self (player_of obj) ->
  _get_text self w = Return (stopped_state self).
Proof.
  intros Hb Ho F. destruct (read_failure_raises self (player_of obj) F) as [e He].
  now rewrite (get_text_cases self w b Hb), Ho, He.
Qed.

Lemma stopped_on_read_failure_witness :
  SessionBus (world_with (Return no_artist_player)) = Return (bus_with (Return no_artist_player))
  /\ reach (bus_with (Return no_artist_player)) = Return no_artist_player
  /\ read_failure default_self (player_of no_artist_player)
  /\ _get_text default_self (world_with (Return no_artist_player))
     = Return (stopped_state default_self).
Proof.
  assert (F : read_failure default_self (player_of no_artist_player)).
  { apply (artist_missing default_self (player_of no_artist_player)
             (VDict (without (L "xesam:artist") sample_metadata))); reflexivity. }
  split; [reflexivity|]. split; [reflexivity|]. split; [exact F|].
  apply (stopped_on_read_failure default_self (world_with (Return no_artist_player))
           (bus_with (Return no_artist_player)) no_artist_player);
    [reflexivity | reflexivity | exact F].
Defined.

Lemma read_track_status (self : Py3status) (player : Interface) (status : pyval)
  (t : track) :
  Get player PLAYER (L "PlaybackStatus") = Return status ->
  read_track self player = Return t ->
  exists st, status = VStr st /\ t_color t = status_color self st.
Proof.
  intros Hs. rewrite read_track_fields.
  destruct (Get player PLAYER (L "Metadata")) as [md|e]; [|discriminate]. cbn [bind].
  destruct (track_fields self md) as [f|e]; [|discriminate]. cbn [bind].
  rewrite Hs. cbn [bind].
  destruct status as [| z | st | l | d]; try discriminate.
  cbn [py_strip bind]. intros [= <-]. exists st. split; reflexivity.
Qed.

(** C5: on a poll that reads the track and renders the template, the
    colour is the playing colour when the status text, stripped, is exactly
    [Playing], and the paused colour for every other status text. *)
Theorem playing_color_selection (self : Py3status) (w : dbus_world) (b : bus)
  (obj : proxy_object) (status : pyval) (t : track) (text : str) :
  SessionBus w = Return b ->
  reach b = Return obj ->
  Get (player_of obj) PLAYER (L "PlaybackStatus") = Return status ->
  read_track self (player_of obj) = Return t ->
  safe_format (py3 (cfg self)) (format (cfg self)) (format_params t) = Return text ->
  exists st,
    status = VStr st
    /\ _get_text self w
       = Return (text, if str_eqb (strip st) (L "Playing")
                       then color_playing self else color_paused self).
Proof.
  intros Hb Ho Hs Ht Hf.
  destruct (read_track_status self (player_of obj) status t Hs Ht) as (st & -> & Hc).
  exists st. split; [reflexivity|].
  rewrite (get_text_cases self w b Hb), Ho, Ht, Hf.
  now rewrite Hc.
Qed.

Lemma playing_color_selection_witness :
  SessionBus (world_with (Return playing_player)) = Return (bus_with (Return playing_player))
  /\ reach (bus_with (Return playing_player)) = Return playing_player
  /\ exists st,
       VStr (L "Playing") = VStr st
       /\ _get_text default_self (world_with (Return playing_player))
          = Return (L "Rick Astley : Never Gonna Give You Up",
                    if str_eqb (strip st) (L "Playing")
                    then color_playing default_self else color_paused default_self).
Proof.
  split; [reflexivity|]. split; [reflexivity|].
  apply (playing_color_selection default_self (world_with (Return playing_player))
           (bus_with (Return playing_player)) playing_player (VStr (L "Playing"))
           {| t_album := VStr (L "Whenever You Need Somebody");
              t_artist := VStr (L "Rick Astley");
              t_rtime := L "0:03:33";
              t_title := VStr (L "Never Gonna Give You Up");
              t_color := Some (L "#00FF00") |}
           (L "Rick Astley : Never Gonna Give You Up"));
    vm_compute; reflexivity.
Defined.

(** The comparison with [Playing] is exact: other spellings and other
    states take the paused colour. *)
Lemma status_color_examples :
  status_color default_self (L " Playing ") = Some (L "#00FF00")
  /\ status_color default_self (L "playing") = Some (L "#FFFF00")
  /\ status_color default_self (L "PLAYING") = Some (L "#FFFF00")
  /\ status_color default_self (L "Paused") = Some (L "#FFFF00")
  /\ status_color default_self (L "Stopped") = Some (L "#FFFF00").
Proof. repeat split; vm_compute; reflexivity. Qed.

(** C6 (counterexample): with the default configuration a track without
    an artist is not rendered with an empty artist; the poll answers with
    the stopped state. *)
Lemma missing_artist_gives_stopped :
  missing (VDict (without (L "xesam:artist") sample_metadata)) (L "xesam:artist")
  /\ format (cfg default_self) = L "{artist} : {title}"
  /\ _get_text default_self (world_with (Return no_artist_player))
     = Return (L "MellowPlayer stopped", Some (L "#FFFF00")).
Proof. repeat split; vm_compute; reflexivity. Qed.

Lemma track_fields_unsanitized (self : Py3status) (d : list (str * pyval))
  (ar : pyval) (rt : str) :
  sanitize_titles (cfg self) = false ->
  py_first (or_none (lookup (L "xesam:artist") d)) = Return ar ->
  rtime_of (or_none (lookup (L "mpris:length") d)) = Return rt ->
  track_fields self (VDict d)
  = Return (or_none (lookup (L "xesam:album") d), ar, rt,
            or_none (lookup (L "xesam:title") d)).
Proof.
  intros Hs Ha Hr. unfold track_fields. cbn [py_get bind].
  fold (or_none (lookup (L "xesam:artist") d)). rewrite Ha. cbn [bind].
  fold (or_none (lookup (L "mpris:length") d)). rewrite Hr. cbn [bind].
  rewrite Hs. reflexivity.
Qed.

(** C6 (amended): with sanitizing switched off, an album or a title that
    is absent from the metadata reaches the formatter as [None]; the module
    raises nothing on it, and the text is what the formatter makes of the
    template. *)
Theorem unsanitized_missing_fields_reach_formatter (self : Py3status) (w : dbus_world)
  (b : bus) (obj : proxy_object) (d : list (str * pyval)) (ar : pyval) (rt st : str) :
  sanitize_titles (cfg self) = false ->
  SessionBus w = Return b ->
  reach b = Return obj ->
  Get (player_of obj) PLAYER (L "Metadata") = Return (VDict d) ->
  py_first (or_none (lookup (L "xesam:artist") d)) = Return ar ->
  rtime_of (or_none (lookup (L "mpris:length") d)) = Return rt ->
  Get (player_of obj) PLAYER (L "PlaybackStatus") = Return (VStr st) ->
  _get_text self w
  = try_except
      (text <- safe_format (py3 (cfg self)) (format (cfg self))
                 [(L "title", or_none (lookup (L "xesam:title") d));
                  (L "artist", ar);
                  (L "album", or_none (lookup (L "xesam:album") d));
                  (L "time", VStr rt)] ;;
       Return (text, status_color self st))
      (Return (down_state self)).
Proof.
  intros Hs Hb Ho Hm Ha Hr Hp.
  rewrite (get_text_cases self w b Hb), Ho, read_track_fields, Hm. cbn [bind].
  rewrite (track_fields_unsanitized self d ar rt Hs Ha Hr). cbn [bind].
  rewrite Hp. cbn [bind py_strip py_eq_str fst snd].
  unfold format_params. cbn [t_title t_artist t_album t_rtime t_color].
  fold (status_color self st).
  destruct (safe_format _ _ _); reflexivity.
Qed.

Lemma unsanitized_missing_fields_reach_formatter_witness :
  sanitize_titles (cfg unsanitized_self) = false
  /\ lookup (L "xesam:album") (without (L "xesam:album") sample_metadata) = None
  /\ _get_text unsanitized_self (world_with (Return no_album_player))
     = try_except
         (text <- safe_format_spec (L "{album} - {title}")
                    [(L "title", VStr (L "Never Gonna Give You Up (Remastered 2017)"));
                     (L "artist", VStr (L "Rick Astley"));
                     (L "album", VNone);
                     (L "time", VStr (L "0:03:33"))] ;;
          Return (text, status_color unsanitized_self (L "Playing")))
         (Return (down_state unsanitized_self)).
Proof.
  split; [reflexivity|]. split; [reflexivity|].
  apply (unsanitized_missing_fields_reach_formatter unsanitized_self
           (world_with (Return no_album_player)) (bus_with (Return no_album_player))
           no_album_player (without (L "xesam:album") sample_metadata)
           (VStr (L "Rick Astley")) (L "0:03:33") (L "Playing"));
    vm_compute; reflexivity.
Defined.

(** C10: when the metadata yields its fields, the status is a text and
    the formatter returns, the poll returns the text rendered from the
    fields, whatever the status; the status only decides the colour. *)
Theorem text_independent_of_status (self : Py3status) (w : dbus_world) (b : bus)
  (obj : proxy_object) (md album artist title : pyval) (rtime st text : str) :
  SessionBus w = Return b ->
  reach b = Return obj ->
  Get (player_of obj) PLAYER (L "Metadata") = Return md ->
  track_fields self md = Return (album, artist, rtime, title) ->
  Get (player_of obj) PLAYER (L "PlaybackStatus") = Return (VStr st) ->
  safe_format (py3 (cfg self)) (format (cfg self))
    [(L "title", title); (L "artist", artist); (L "album", album); (L "time", VStr rtime)]
  = Return text ->
  _get_text self w = Return (text, status_color self st)
  /\ (status_color self st = color_playing self \/ status_color self st = color_paused self).
Proof.
  intros Hb Ho Hm Hf Hp Hr. split.
  - rewrite (get_text_cases self w b Hb), Ho, read_track_fields, Hm. cbn [bind].
    rewrite Hf. cbn [bind]. rewrite Hp. cbn [bind py_strip py_eq_str fst snd].
    unfold format_params. cbn [t_title t_artist t_album t_rtime t_color].
    rewrite Hr. reflexivity.
  - unfold status_color. destruct (str_eqb _ _); auto.
Qed.

Lemma text_independent_of_status_witness :
  SessionBus (world_with (Return paused_player)) = Return (bus_with (Return paused_player))
  /\ reach (bus_with (Return paused_player)) = Return paused_player
  /\ _get_text default_self (world_with (Return paused_player))
     = Return (L "Rick Astley : Never Gonna Give You Up",
               status_color default_self (L " Paused "))
  /\ _get_text default_self (world_with (Return playing_player))
     = Return (L "Rick Astley : Never Gonna Give You Up",
               status_color default_self (L "Playing")).
Proof.
  split; [reflexivity|]. split; [reflexivity|]. split.
  - apply (text_independent_of_status default_self (world_with (Return paused_player))
             (bus_with (Return paused_player)) paused_player (VDict sample_metadata)
             (VStr (L "Whenever You Need Somebody")) (VStr (L "Rick Astley"))
             (VStr (L "Never Gonna Give You Up")) (L "0:03:33") (L " Paused ")
             (L "Rick Astley : Never Gonna Give You Up"));
      vm_compute; reflexivity.
  - apply (text_independent_of_status default_self (world_with (Return playing_player))
             (bus_with (Return playing_player)) playing_player (VDict sample_metadata)
             (VStr (L "Whenever You Need Somebody")) (VStr (L "Rick Astley"))
             (VStr (L "Never Gonna Give You Up")) (L "0:03:33") (L "Playing")
             (L "Rick Astley : Never Gonna Give You Up"));
      vm_compute; reflexivity.
Defined.






(** ** Further properties *)

(** *** What sanitizing keeps *)

Lemma subseq_refl (s : str) : subseq s s.
Proof. induction s; constructor; assumption. Qed.

Lemma subseq_nil_l (s : str) : subseq [] s.
Proof. induction s; constructor; assumption. Qed.

Lemma subseq_trans (a b c : str) : subseq a b -> subseq b c -> subseq a c.
Proof.
  intros Hab Hbc. revert a Hab.
  induction Hbc as [|x b c Hbc IH|x b c Hbc IH]; intros a Hab.
  - exact Hab.
  - apply subseq_skip. now apply IH.
  - inversion Hab; subst.
    + apply subseq_skip. now apply IH.
    + apply subseq_keep. now apply IH.
Qed.

Lemma subseq_app_l (pre s : str) : subseq s (pre ++ s).
Proof. induction pre; [apply subseq_refl | now constructor]. Qed.

Lemma subseq_app_r (s post : str) : subseq s (s ++ post).
Proof. induction s; [apply subseq_nil_l | now constructor]. Qed.

Lemma subseq_length (a s : str) : subseq a s -> length a <= length s.
Proof. induction 1; simpl; lia. Qed.

Lemma subseq_In (a s : str) (c : ascii) : subseq a s -> In c a -> In c s.
Proof.
  induction 1 as [|x a s H IH|x a s H IH]; intros Hin.
  - exact Hin.
  - right. now apply IH.
  - destruct Hin as [-> | Hin]; [now left | right; now apply IH].
Qed.

(** Whatever the pattern, substituting the empty text only deletes. *)
Lemma sub_go_subseq (p : Re.pattern) (s : str) :
  forall skip, subseq (Re.sub_go p [] skip s) s.
Proof.
  induction s as [|c s IH]; intros skip.
  - cbn [Re.sub_go]. destruct (Re.match_here p []); constructor.
  - cbn [Re.sub_go]. destruct skip as [|n].
    + destruct (Re.match_here p (c :: s)) as [e|].
      * destruct (length e <? length (c :: s)).
        -- cbn [app]. constructor. apply IH.
        -- cbn [app]. destruct (Re.match_here_nonempty p (c :: s)).
           ++ cbn [app]. constructor. apply IH.
           ++ apply subseq_keep, IH.
      * apply subseq_keep, IH.
    + constructor. apply IH.
Qed.

Lemma strip_subseq (s : str) : subseq (strip s) s.
Proof.
  destruct (strip_infix s) as (pre & post & H). rewrite H at 2.
  eapply subseq_trans; [apply subseq_app_r | apply subseq_app_l].
Qed.

(** X1: sanitizing only deletes characters: the result is the title with
    some characters left out, in the same order, whatever the two compiled
    patterns are. *)
Theorem sanitize_only_deletes (self : Py3status) (s : str) :
  subseq (sanitize self s) s
  /\ length (sanitize self s) <= length s.
Proof.
  assert (H : subseq (sanitize self s) s).
  { unfold sanitize, Re.sub.
    eapply subseq_trans; [apply strip_subseq|].
    eapply subseq_trans; apply sub_go_subseq. }
  split; [exact H | now apply subseq_length].
Qed.

Lemma rstrip_last (s : str) : head_not_space (rev (rstrip s)).
Proof. unfold rstrip. rewrite rev_involutive. apply lstrip_head. Qed.

(** X2: a sanitized title neither starts nor ends with whitespace, and
    stripping it again changes nothing. *)
Theorem sanitize_is_stripped (self : Py3status) (s : str) :
  head_not_space (sanitize self s)
  /\ head_not_space (rev (sanitize self s))
  /\ strip (sanitize self s) = sanitize self s.
Proof.
  unfold sanitize. split; [|split].
  - unfold strip. apply rstrip_head, lstrip_head.
  - unfold strip. apply rstrip_last.
  - apply strip_idem.
Qed.

(** *** Texts the patterns leave alone *)

Lemma no_closer_clean (ws : list str) (s : str) :
  plain_words ws = true -> lacks is_closer s = true -> clean (bracket_pattern ws) s.
Proof.
  intros Hp Hs x [pre ->]. rewrite (bracket_match ws x Hp).
  rewrite lacks_app in Hs. apply andb_prop in Hs. destruct Hs as [_ Hx].
  destruct x as [|o t]; [reflexivity|]. cbn [bracket_at].
  cbn [lacks forallb] in Hx. apply andb_prop in Hx. destruct Hx as [_ Ht].
  assert (T : to_closer t = None) by (apply to_closer_none, lacks_Forall; exact Ht).
  rewrite T. now destruct (is_opener o && _).
Qed.

(** X3: words count only inside a bracket pair or behind a delimiter: a
    title without a delimiter that has no opening bracket, or no closing
    one, is only stripped. *)
Theorem sanitize_leaves_plain_text (c : config) (self : Py3status) (s : str) :
  plain_words (sanitize_words c) = true ->
  post_config_hook c = Re.Ok self ->
  (lacks is_opener s || lacks is_closer s) && lacks is_delim s = true ->
  sanitize self s = strip s.
Proof.
  intros Hp Hc H. apply andb_prop in H. destruct H as [Hb Hd].
  rewrite (sanitize_plain c self s Hp Hc).
  assert (B : Re.sub (bracket_pattern (sanitize_words c)) [] s = s).
  { apply orb_prop in Hb. destruct Hb as [Ho | Hcl].
    - now apply sub_bracket_none.
    - apply (sub_clean _ (pB_consumes _ Hp)). now apply no_closer_clean. }
  rewrite B. now rewrite sub_delim_none.
Qed.

Lemma sanitize_leaves_plain_text_witness :
  plain_words (sanitize_words (default_config (theme safe_format_spec))) = true
  /\ post_config_hook (default_config (theme safe_format_spec)) = Re.Ok default_self
  /\ sanitize default_self (L " Extended Play (Remastered 2017 ") 
     = strip (L " Extended Play (Remastered 2017 ").
Proof.
  assert (H : post_config_hook (default_config (theme safe_format_spec)) = Re.Ok default_self)
    by (apply hook_hooked; reflexivity).
  split; [reflexivity|]. split; [exact H|].
  apply (sanitize_leaves_plain_text (default_config (theme safe_format_spec)) default_self
           (L " Extended Play (Remastered 2017 "));
    [reflexivity | exact H | reflexivity].
Defined.

(** *** Segments with any configured word *)

(** X4: for every configured word, in any case: a bracket pair that holds
    the word is removed with its content, and a delimiter followed on its
    line by the word is removed with the rest of the line. *)
Theorem sanitize_removes_word_segments (c : config) (self : Py3status)
  (w X t a y z a' y' : str) (o cl d : ascii) :
  plain_words (sanitize_words c) = true ->
  In w (sanitize_words c) ->
  post_config_hook c = Re.Ok self ->
  starts_with w X = true ->
  lacks is_opener X && lacks is_closer X && lacks Re.is_newline X = true ->
  lacks is_opener t && lacks is_delim t = true ->
  lacks is_opener z && lacks is_delim z = true ->
  is_opener o = true -> is_closer cl = true ->
  lacks is_closer a && lacks is_closer y = true ->
  is_delim d = true ->
  lacks is_opener a' && lacks is_delim a' && lacks Re.is_newline a' = true ->
  lacks is_opener y' && lacks Re.is_newline y' = true ->
  sanitize self (t ++ o :: (a ++ X ++ y) ++ cl :: z) = strip (t ++ z)
  /\ sanitize self (t ++ d :: a' ++ X ++ y') = strip t.
Proof.
  intros Hp Hin Hc SX HX Ht Hz Ho Hcl Hay Hd Ha' Hy'.
  apply andb_prop in HX. destruct HX as [HX NX].
  apply andb_prop in HX. destruct HX as [OX CX].
  apply andb_prop in Ht. destruct Ht as [Ht1 Ht2].
  apply andb_prop in Hz. destruct Hz as [Hz1 Hz2].
  apply andb_prop in Hay. destruct Hay as [Ha Hy].
  apply andb_prop in Ha'. destruct Ha' as [Ha' Ha'3].
  apply andb_prop in Ha'. destruct Ha' as [Ha'1 Ha'2].
  apply andb_prop in Hy'. destruct Hy' as [Hy'1 Hy'2].
  assert (DN : lacks Re.is_newline [d] = true /\ lacks is_opener [d] = true).
  { cbn [lacks forallb]. rewrite !andb_true_r.
    assert (A : forallb (fun d => implb (is_delim d)
                           (negb (Re.is_newline d) && negb (is_opener d))) all_ascii
                = true) by (vm_compute; reflexivity).
    generalize (forall_ascii _ A d). cbv beta. rewrite Hd. cbn [implb].
    intros E. apply andb_prop in E. exact E. }
  destruct DN as [DN DO].
  rewrite !(sanitize_plain c self _ Hp Hc). split.
  - rewrite (bracket_segment (sanitize_words c) w t a X y z o cl); try assumption.
    + rewrite sub_delim_none; [reflexivity|]. rewrite lacks_app. now rewrite Ht2, Hz2.
    + rewrite !lacks_app. now rewrite Ha, CX, Hy.
  - rewrite sub_bracket_none; [|assumption|].
    + rewrite (delim_segment (sanitize_words c) w t a' X y' d);
        try assumption; [reflexivity|].
      change (d :: a' ++ X ++ y') with ([d] ++ a' ++ X ++ y').
      rewrite !lacks_app. now rewrite DN, Ha'3, NX, Hy'2.
    + change (d :: a' ++ X ++ y') with ([d] ++ a' ++ X ++ y').
      rewrite !lacks_app. now rewrite Ht1, DO, Ha'1, OX, Hy'1.
Qed.

Lemma sanitize_removes_word_segments_witness :
  plain_words (sanitize_words (default_config (theme safe_format_spec))) = true
  /\ In (L "feat") (sanitize_words (default_config (theme safe_format_spec)))
  /\ post_config_hook (default_config (theme safe_format_spec)) = Re.Ok default_self
  /\ starts_with (L "feat") (L "Featuring") = true
  /\ sanitize default_self
       (L "Cry for Help " ++ "["%char :: (L "the one " ++ L "Featuring" ++ L " a choir")
          ++ "]"%char :: L " live")
     = strip (L "Cry for Help " ++ L " live")
  /\ sanitize default_self
       (L "Cry for Help " ++ ";"%char :: L " now " ++ L "Featuring" ++ L " a choir")
     = strip (L "Cry for Help ").
Proof.
  assert (H : post_config_hook (default_config (theme safe_format_spec)) = Re.Ok default_self)
    by (apply hook_hooked; reflexivity).
  assert (I : In (L "feat") (sanitize_words (default_config (theme safe_format_spec))))
    by (simpl; tauto).
  split; [reflexivity|]. split; [exact I|]. split; [exact H|]. split; [reflexivity|].
  apply (sanitize_removes_word_segments (default_config (theme safe_format_spec))
           default_self (L "feat") (L "Featuring") (L "Cry for Help ") (L "the one ")
           (L " a choir") (L " live") (L " now ") (L " a choir")
           "["%char "]"%char ";"%char);
    [reflexivity | exact I | exact H | reflexivity | reflexivity
     | reflexivity | reflexivity | reflexivity | reflexivity | reflexivity
     | reflexivity | reflexivity | reflexivity].
Defined.

(** *** What is left after the passes *)

(** X5: after the bracket pass no bracketed segment with a word is left,
    for every text: no match of [inside_brackets] starts anywhere in the
    result of the first substitution. *)
Theorem bracket_pass_is_complete (c : config) (self : Py3status) (s : str) :
  plain_words (sanitize_words c) = true ->
  post_config_hook c = Re.Ok self ->
  clean (inside_brackets self) (Re.sub (inside_brackets self) [] s)
  /\ Re.sub (inside_brackets self) [] (Re.sub (inside_brackets self) [] s)
     = Re.sub (inside_brackets self) [] s.
Proof.
  intros Hp Hc. rewrite (post_config_hook_plain c Hp) in Hc. injection Hc as <-.
  cbn [inside_brackets].
  pose proof (bracket_clean (sanitize_words c) Hp s) as B.
  split; [exact B|]. now apply (sub_clean _ (pB_consumes _ Hp)).
Qed.

Lemma bracket_pass_is_complete_witness :
  plain_words (sanitize_words (default_config (theme safe_format_spec))) = true
  /\ post_config_hook (default_config (theme safe_format_spec)) = Re.Ok default_self
  /\ Re.sub (inside_brackets default_self) []
       (Re.sub (inside_brackets default_self) [] two_line_title)
     = Re.sub (inside_brackets default_self) [] two_line_title.
Proof.
  assert (H : post_config_hook (default_config (theme safe_format_spec)) = Re.Ok default_self)
    by (apply hook_hooked; reflexivity).
  split; [reflexivity|]. split; [exact H|].
  apply (proj2 (bracket_pass_is_complete (default_config (theme safe_format_spec))
                  default_self two_line_title eq_refl H)).
Defined.

Lemma delim_head (ws : list str) (c : ascii) (s : str) :
  delim_at ws (c :: s) <> None -> is_delim c = true.
Proof. cbn [delim_at]. destruct (is_delim c); [reflexivity | intros H; now contradiction H]. Qed.

Lemma delim_cut (ws : list str) (s : str) :
  no_newline s ->
  exists post,
    s = Re.sub (delim_pattern ws) [] s ++ post
    /\ match post with [] => True | d :: _ => is_delim d = true end.
Proof.
  induction s as [|c s IH]; intros Hs.
  - exists []. now rewrite (sub_nil _ (pD_consumes ws)).
  - destruct (Re.match_here (delim_pattern ws) (c :: s)) as [e|] eqn:E.
    + rewrite (sub_some _ (pD_consumes ws) _ _ E).
      rewrite delim_match in E.
      assert (e = []) as -> by (now apply (delim_to_end ws (c :: s))).
      rewrite (sub_nil _ (pD_consumes ws)). exists (c :: s). split; [reflexivity|].
      apply (delim_head ws c s). congruence.
    + rewrite (sub_none _ c s E).
      destruct IH as (post & Hpost & Hd); [now inversion Hs|].
      exists post. split; [cbn [app]; now rewrite <- Hpost | exact Hd].
Qed.

(** X6: on a one-line text the delimiter pass cuts once: its result is
    the text up to some delimiter, or the whole text. *)
Theorem delimiter_pass_cuts_at_delimiter (c : config) (self : Py3status) (s : str) :
  plain_words (sanitize_words c) = true ->
  post_config_hook c = Re.Ok self ->
  lacks Re.is_newline s = true ->
  exists post,
    s = Re.sub (after_delimiter self) [] s ++ post
    /\ match post with [] => True | d :: _ => is_delim d = true end.
Proof.
  intros Hp Hc Hs. rewrite (post_config_hook_plain c Hp) in Hc. injection Hc as <-.
  cbn [after_delimiter]. apply delim_cut. now apply lacks_Forall.
Qed.

Lemma delimiter_pass_cuts_at_delimiter_witness :
  plain_words (sanitize_words (default_config (theme safe_format_spec))) = true
  /\ post_config_hook (default_config (theme safe_format_spec)) = Re.Ok default_self
  /\ lacks Re.is_newline (L "One - Two - Radio Edit / 1987") = true
  /\ exists post,
       L "One - Two - Radio Edit / 1987"
       = Re.sub (after_delimiter default_self) [] (L "One - Two - Radio Edit / 1987") ++ post
       /\ match post with [] => True | d :: _ => is_delim d = true end.
Proof.
  assert (H : post_config_hook (default_config (theme safe_format_spec)) = Re.Ok default_self)
    by (apply hook_hooked; reflexivity).
  split; [reflexivity|]. split; [exact H|]. split; [reflexivity|].
  apply (delimiter_pass_cuts_at_delimiter (default_config (theme safe_format_spec))
           default_self (L "One - Two - Radio Edit / 1987"));
    [reflexivity | exact H | reflexivity].
Defined.

Lemma one_line_clean (ws : list str) (s : str) :
  plain_words ws = true -> no_newline s ->
  let r := strip (Re.sub (delim_pattern ws) [] (Re.sub (bracket_pattern ws) [] s)) in
  clean (bracket_pattern ws) r /\ clean (delim_pattern ws) r.
Proof.
  intros Hp Hs r. unfold r.
  set (t := Re.sub (bracket_pattern ws) [] s).
  assert (Ht : no_newline t) by (apply (sub_Forall _ (pB_consumes ws Hp)); exact Hs).
  assert (Bt : clean (bracket_pattern ws) t) by apply (bracket_clean ws Hp).
  destruct (delim_sub_prefix ws t Ht) as (post & Hpost & Du).
  set (u := Re.sub (delim_pattern ws) [] t) in *.
  assert (Bu : clean (bracket_pattern ws) u).
  { apply (clean_prefix _ (pB_mono ws Hp) u post). now rewrite <- Hpost. }
  destruct (strip_infix u) as (l & q & Hu). split.
  - apply (clean_infix _ (pB_mono ws Hp) l (strip u) q). now rewrite <- Hu.
  - apply (clean_infix _ (pD_mono ws) l (strip u) q). now rewrite <- Hu.
Qed.

(** X7: a sanitized one-line title holds nothing more to remove: neither
    pattern matches anywhere in it. *)
Theorem sanitize_leaves_nothing_to_remove (c : config) (self : Py3status) (s : str) :
  plain_words (sanitize_words c) = true ->
  post_config_hook c = Re.Ok self ->
  lacks Re.is_newline s = true ->
  clean (inside_brackets self) (sanitize self s)
  /\ clean (after_delimiter self) (sanitize self s).
Proof.
  intros Hp Hc Hs. rewrite (sanitize_plain c self s Hp Hc).
  rewrite (post_config_hook_plain c Hp) in Hc. injection Hc as <-.
  cbn [inside_brackets after_delimiter].
  apply (one_line_clean (sanitize_words c) s Hp). now apply lacks_Forall.
Qed.

Lemma sanitize_leaves_nothing_to_remove_witness :
  plain_words (sanitize_words (default_config (theme safe_format_spec))) = true
  /\ post_config_hook (default_config (theme safe_format_spec)) = Re.Ok default_self
  /\ lacks Re.is_newline (L "One (demo) - Two (x) - Radio Edit") = true
  /\ clean (inside_brackets default_self)
       (sanitize default_self (L "One (demo) - Two (x) - Radio Edit"))
  /\ clean (after_delimiter default_self)
       (sanitize default_self (L "One (demo) - Two (x) - Radio Edit")).
Proof.
  assert (H : post_config_hook (default_config (theme safe_format_spec)) = Re.Ok default_self)
    by (apply hook_hooked; reflexivity).
  split; [reflexivity|]. split; [exact H|]. split; [reflexivity|].
  apply (sanitize_leaves_nothing_to_remove (default_config (theme safe_format_spec))
           default_self (L "One (demo) - Two (x) - Radio Edit"));
    [reflexivity | exact H | reflexivity].
Defined.

(** *** The time text, continued *)

Lemma fmt_d_one_digit (n : Z) : (0 <= n <= 9)%Z -> length (Timedelta.fmt_d n) = 1.
Proof.
  intros H.
  assert (A : forallb (fun k => length (Timedelta.fmt_d (Z.of_nat k)) =? 1) (seq 0 10) = true)
    by (vm_compute; reflexivity).
  rewrite forallb_forall in A. rewrite <- (Z2Nat.id n) by lia.
  apply Nat.eqb_eq, A, in_seq. lia.
Qed.

(** X9: every length that is a whole number of seconds below ten hours
    gives the empty time text: the printed duration has seven characters
    and no fraction, and the slice takes all seven. *)
Theorem whole_seconds_give_empty_time (us : Z) :
  (0 <= us < 36000000000)%Z ->
  (us mod 1000000 = 0)%Z ->
  rtime_of (VInt us) = Return [].
Proof.
  intros Hr Hm. unfold rtime_of, Timedelta.py_timedelta, Timedelta.of_microseconds.
  assert (Ht : (0 <= us / 1000000 < 36000)%Z)
    by (split; [apply Z.div_pos; lia | apply Z.div_lt_upper_bound; lia]).
  assert (Hd : (us / 1000000 / 86400 = 0)%Z) by (apply Z.div_small; lia).
  rewrite Hd. cbn [Z.abs Z.leb Z.compare bind]. f_equal.
  rewrite Z.mod_small by lia. rewrite Hm.
  unfold Timedelta.to_str. cbn [Timedelta.days Timedelta.seconds Timedelta.microseconds].
  cbn [Z.eqb]. unfold drop_last.
  assert (Hq : (0 <= us / 1000000 / 60 < 600)%Z)
    by (split; [apply Z.div_pos; lia | apply Z.div_lt_upper_bound; lia]).
  assert (Hh : (0 <= us / 1000000 / 60 / 60 < 10)%Z)
    by (split; [apply Z.div_pos; lia | apply Z.div_lt_upper_bound; lia]).
  rewrite !length_app, fmt_d_one_digit by lia. reflexivity.
Qed.

Lemma whole_seconds_give_empty_time_witness :
  (0 <= 213000000 < 36000000000)%Z
  /\ (213000000 mod 1000000 = 0)%Z
  /\ rtime_of (VInt 213000000) = Return [].
Proof.
  split; [lia|]. split; [reflexivity|].
  apply (whole_seconds_give_empty_time 213000000); [lia | reflexivity].
Defined.

(** X10: a length below one day that is not a whole number of seconds
    gives hours, minutes and seconds without the fraction. *)
Theorem fractional_length_gives_clock_text (us : Z) :
  (0 <= us < 86400000000)%Z ->
  (us mod 1000000 <> 0)%Z ->
  rtime_of (VInt us)
  = Return (Timedelta.fmt_d (us / 3600000000) ++ L ":"
            ++ Timedelta.fmt_02d (us / 60000000 mod 60) ++ L ":"
            ++ Timedelta.fmt_02d (us / 1000000 mod 60)).
Proof.
  intros Hr Hm. unfold rtime_of, Timedelta.py_timedelta, Timedelta.of_microseconds.
  assert (Ht : (0 <= us / 1000000 < 86400)%Z)
    by (split; [apply Z.div_pos; lia | apply Z.div_lt_upper_bound; lia]).
  assert (Hd : (us / 1000000 / 86400 = 0)%Z) by (apply Z.div_small; lia).
  rewrite Hd. cbn [Z.abs Z.leb Z.compare bind]. f_equal.
  rewrite Z.mod_small by lia.
  unfold Timedelta.to_str. cbn [Timedelta.days Timedelta.seconds Timedelta.microseconds].
  cbn [Z.eqb]. apply Z.eqb_neq in Hm. rewrite Hm.
  rewrite !Z.div_div by lia.
  change (1000000 * (60 * 60))%Z with 3600000000%Z.
  change (1000000 * 60)%Z with 60000000%Z.
  unfold drop_last.
  set (w := Timedelta.fmt_d (us / 3600000000) ++ L ":"
            ++ Timedelta.fmt_02d (us / 60000000 mod 60) ++ L ":"
            ++ Timedelta.fmt_02d (us / 1000000 mod 60)).
  change (Timedelta.fmt_d (us / 3600000000) ++ L ":"
          ++ Timedelta.fmt_02d (us / 60000000 mod 60) ++ L ":"
          ++ Timedelta.fmt_02d (us / 1000000 mod 60)) with w.
  replace (length ((w ++ L "." ++ Timedelta.fmt_06d (us mod 1000000))) - 7) with (length w + 0).
  - rewrite firstn_app_2. cbn [firstn]. apply app_nil_r.
  - rewrite length_app. simpl. lia.
Qed.

Lemma fractional_length_gives_clock_text_witness :
  (0 <= 3723000001 < 86400000000)%Z
  /\ (3723000001 mod 1000000 <> 0)%Z
  /\ rtime_of (VInt 3723000001) = Return (L "1:02:03").
Proof.
  assert (N : (3723000001 mod 1000000 <> 0)%Z) by (vm_compute; discriminate).
  split; [lia|]. split; [exact N|].
  apply (fractional_length_gives_clock_text 3723000001); [lia | exact N].
Defined.

(** X11: whatever value the length has, a time text that is produced
    holds digits, colons and the words of the days prefix only: never a
    decimal point. *)
Theorem time_text_has_no_fraction (v : pyval) (t : str) :
  rtime_of v = Return t ->
  Forall (fun c => time_char c = true) t /\ no_subsecond t.
Proof.
  intros H.
  assert (F : Forall (fun c => time_char c = true) t).
  { destruct v as [| us | s | l | d]; try discriminate.
    revert H. unfold rtime_of, Timedelta.py_timedelta, Timedelta.of_microseconds.
    destruct (Z.abs (us / 1000000 / 86400) <=? 999999999)%Z; [|discriminate].
    cbn [bind]. intros [= <-]. rewrite to_str_whole.
    destruct (Timedelta.microseconds _ =? 0)%Z.
    - apply drop_last_chars, whole_part_chars.
    - unfold drop_last. rewrite length_app.
      replace (length (whole_part _) + length (L "." ++ Timedelta.fmt_06d _) - 7)
        with (length (whole_part (Timedelta.TD (us / 1000000 / 86400)
                        ((us / 1000000) mod 86400) (us mod 1000000))) + 0)
        by (simpl; lia).
      rewrite firstn_app_2. cbn [firstn]. rewrite app_nil_r. apply whole_part_chars. }
  split; [exact F | now apply time_chars_no_subsecond].
Qed.

Lemma time_text_has_no_fraction_witness :
  rtime_of (VInt (-1)) = Return (L "-1 day, 23:59:59")
  /\ no_subsecond (L "-1 day, 23:59:59").
Proof.
  assert (H : rtime_of (VInt (-1)) = Return (L "-1 day, 23:59:59"))
    by (vm_compute; reflexivity).
  split; [exact H|].
  exact (proj2 (time_text_has_no_fraction (VInt (-1)) (L "-1 day, 23:59:59") H)).
Defined.

(** *** Polling, continued *)

Lemma read_track_color (self : Py3status) (player : Interface) (t : track) :
  read_track self player = Return t ->
  t_color t = color_playing self \/ t_color t = color_paused self.
Proof.
  rewrite read_track_fields.
  destruct (Get player PLAYER (L "Metadata")) as [md|e]; [|discriminate]. cbn [bind].
  destruct (track_fields self md) as [f|e]; [|discriminate]. cbn [bind].
  destruct (Get player PLAYER (L "PlaybackStatus")) as [st|e]; [|discriminate]. cbn [bind].
  destruct (py_strip st) as [x|e]; [|discriminate]. cbn [bind].
  intros [= <-]. cbn [t_color].
  match goal with |- context [if ?q then _ else _] => destruct q end;
    [left | right]; reflexivity.
Qed.

(** X12: the poll raises exactly when the session bus cannot be opened.
    On an open bus [mellowplayer] always returns a response, whatever the
    player object, the properties and the formatter do; its colour is one
    of the three colours of the module and its deadline is the cache
    timeout from now. *)
Theorem mellowplayer_raises_only_without_bus (self : Py3status) (w : dbus_world) :
  (forall b, SessionBus w = Return b ->
     exists text c,
       _get_text self w = Return (text, c)
       /\ (c = color_playing self \/ c = color_paused self \/ c = color_offline self)
       /\ mellowplayer self w
          = Return {| cached_until := time_in (py3 (cfg self)) (cache_timeout (cfg self));
                      color := c; full_text := text |})
  /\ (forall e, SessionBus w = Raise e ->
        _get_text self w = Raise e /\ mellowplayer self w = Raise e).
Proof.
  split.
  - intros b Hb.
    assert (G : exists text c,
              _get_text self w = Return (text, c)
              /\ (c = color_playing self \/ c = color_paused self \/ c = color_offline self)).
    { rewrite (get_text_cases self w b Hb).
      destruct (reach b) as [obj|e].
      - destruct (read_track self (player_of obj)) as [t|e] eqn:R.
        + destruct (safe_format _ _ _) as [text|e].
          * exists text, (t_color t). split; [reflexivity|].
            destruct (read_track_color self _ t R); auto.
          * eexists _, _. split; [reflexivity|]. unfold down_state. auto.
        + eexists _, _. split; [reflexivity|]. unfold stopped_state. auto.
      - eexists _, _. split; [reflexivity|]. unfold down_state. auto. }
    destruct G as (text & c & G & Hc). exists text, c.
    split; [exact G|]. split; [exact Hc|]. unfold mellowplayer. now rewrite G.
  - intros e He. unfold mellowplayer, _get_text. now rewrite He.
Qed.

Lemma mellowplayer_raises_only_without_bus_witness :
  SessionBus (world_with (Return no_artist_player)) = Return (bus_with (Return no_artist_player))
  /\ exists text c,
       _get_text default_self (world_with (Return no_artist_player)) = Return (text, c)
       /\ (c = color_playing default_self \/ c = color_paused default_self
           \/ c = color_offline default_self)
       /\ mellowplayer default_self (world_with (Return no_artist_player))
          = Return {| cached_until := time_in (py3 (cfg default_self))
                                        (cache_timeout (cfg default_self));
                      color := c; full_text := text |}.
Proof.
  split; [reflexivity|].
  apply (proj1 (mellowplayer_raises_only_without_bus default_self
                  (world_with (Return no_artist_player)))
           (bus_with (Return no_artist_player))).
  reflexivity.
Defined.

Lemma track_fields_sanitized (self : Py3status) (d : list (str * pyval))
  (album title : str) (artists artist : pyval) (us : Z) (rt : str) :
  sanitize_titles (cfg self) = true ->
  lookup (L "xesam:album") d = Some (VStr album) ->
  lookup (L "xesam:artist") d = Some artists ->
  py_first artists = Return artist ->
  lookup (L "mpris:length") d = Some (VInt us) ->
  rtime_of (VInt us) = Return rt ->
  lookup (L "xesam:title") d = Some (VStr title) ->
  track_fields self (VDict d)
  = Return (VStr (sanitize self album), artist, rt, VStr (sanitize self title)).
Proof.
  intros Hs Hal Har Hf Hl Hr Hti. unfold track_fields. cbn [py_get bind].
  rewrite Hal, Har, Hl, Hti. cbn [bind]. rewrite Hf. cbn [bind]. rewrite Hr. cbn [bind].
  rewrite Hs. reflexivity.
Qed.

(** X13: for a track with all its fields and sanitizing on, the text is
    what the formatter makes of the template with the sanitized title, the
    first artist as it is, the sanitized album and the time text; the
    colour follows the status. *)
Theorem poll_renders_sanitized_track (self : Py3status) (w : dbus_world) (b : bus)
  (obj : proxy_object) (d : list (str * pyval)) (album title : str)
  (artists artist : pyval) (us : Z) (rt st : str) :
  sanitize_titles (cfg self) = true ->
  SessionBus w = Return b ->
  reach b = Return obj ->
  Get (player_of obj) PLAYER (L "Metadata") = Return (VDict d) ->
  lookup (L "xesam:album") d = Some (VStr album) ->
  lookup (L "xesam:artist") d = Some artists ->
  py_first artists = Return artist ->
  lookup (L "mpris:length") d = Some (VInt us) ->
  rtime_of (VInt us) = Return rt ->
  lookup (L "xesam:title") d = Some (VStr title) ->
  Get (player_of obj) PLAYER (L "PlaybackStatus") = Return (VStr st) ->
  _get_text self w
  = try_except
      (text <- safe_format (py3 (cfg self)) (format (cfg self))
                 [(L "title", VStr (sanitize self title));
                  (L "artist", artist);
                  (L "album", VStr (sanitize self album));
                  (L "time", VStr rt)] ;;
       Return (text, status_color self st))
      (Return (down_state self)).
Proof.
  intros Hs Hb Ho Hm Hal Har Hf Hl Hr Hti Hp.
  rewrite (get_text_cases self w b Hb), Ho, read_track_fields, Hm. cbn [bind].
  rewrite (track_fields_sanitized self d album title artists artist us rt
             Hs Hal Har Hf Hl Hr Hti). cbn [bind].
  rewrite Hp. cbn [bind py_strip py_eq_str fst snd].
  unfold format_params. cbn [t_title t_artist t_album t_rtime t_color].
  fold (status_color self st).
  destruct (safe_format _ _ _); reflexivity.
Qed.

Lemma poll_renders_sanitized_track_witness :
  sanitize_titles (cfg default_self) = true
  /\ _get_text default_self (world_with (Return paused_player))
     = try_except
         (text <- safe_format (py3 (cfg default_self)) (format (cfg default_self))
                    [(L "title",
                      VStr (sanitize default_self
                              (L "Never Gonna Give You Up (Remastered 2017)")));
                     (L "artist", VStr (L "Rick Astley"));
                     (L "album", VStr (sanitize default_self (L "Whenever You Need Somebody")));
                     (L "time", VStr (L "0:03:33"))] ;;
          Return (text, status_color default_self (L " Paused ")))
         (Return (down_state default_self)).
Proof.
  split; [reflexivity|].
  apply (poll_renders_sanitized_track default_self (world_with (Return paused_player))
           (bus_with (Return paused_player)) paused_player sample_metadata
           (L "Whenever You Need Somebody")
           (L "Never Gonna Give You Up (Remastered 2017)")
           (VList [VStr (L "Rick Astley")]) (VStr (L "Rick Astley"))
           213000001 (L "0:03:33") (L " Paused "));
    vm_compute; reflexivity.
Defined.

Lemma fields_raise_read_raises (self : Py3status) (player : Interface) (md : pyval) :
  Get player PLAYER (L "Metadata") = Return md ->
  (exists e, track_fields self md = Raise e) ->
  exists e, read_track self player = Raise e.
Proof.
  intros Hm [e He]. rewrite read_track_fields, Hm. cbn [bind]. rewrite He. now exists e.
Qed.

Lemma malformed_read_raises (self : Py3status) (player : Interface) :
  malformed_read self player -> exists e, read_track self player = Raise e.
Proof.
  intros F.
  destruct F as [md v Hm Hl Hv | md v Hm Ha Hv
                | md v Hm Hs Ht Hv | md v Hm Hs Ha Hv | v Hp Hv].
  - apply (fields_raise_read_raises self player md Hm). unfold track_fields.
    destruct (py_get md (L "xesam:album")); [|eexists; reflexivity]. cbn [bind].
    destruct (py_get md (L "xesam:artist")); [|eexists; reflexivity]. cbn [bind].
    destruct (py_first _); [|eexists; reflexivity]. cbn [bind].
    rewrite Hl. cbn [bind].
    destruct Hv as [[s ->] | [-> | [[l ->] | [d ->]]]]; eexists; reflexivity.
  - apply (fields_raise_read_raises self player md Hm). unfold track_fields.
    destruct (py_get md (L "xesam:album")); [|eexists; reflexivity]. cbn [bind].
    rewrite Ha. cbn [bind].
    destruct Hv as [[z ->] | [[d ->] | ->]]; eexists; reflexivity.
  - apply (fields_raise_read_raises self player md Hm). unfold track_fields.
    rewrite Ht, Hs.
    destruct (py_get md (L "xesam:album")) as [al|]; [|eexists; reflexivity]. cbn [bind].
    destruct (py_get md (L "xesam:artist")); [|eexists; reflexivity]. cbn [bind].
    destruct (py_first _); [|eexists; reflexivity]. cbn [bind].
    destruct (py_get md (L "mpris:length")); [|eexists; reflexivity]. cbn [bind].
    destruct (rtime_of _); [|eexists; reflexivity]. cbn [bind].
    destruct (_sanitize_title self al); [|eexists; reflexivity]. cbn [bind].
    destruct Hv as [[z ->] | [-> | [[l ->] | [d ->]]]]; eexists; reflexivity.
  - apply (fields_raise_read_raises self player md Hm). unfold track_fields.
    rewrite Ha, Hs. cbn [bind].
    destruct (py_get md (L "xesam:artist")); [|eexists; reflexivity]. cbn [bind].
    destruct (py_first _); [|eexists; reflexivity]. cbn [bind].
    destruct (py_get md (L "mpris:length")); [|eexists; reflexivity]. cbn [bind].
    destruct (rtime_of _); [|eexists; reflexivity]. cbn [bind].
    destruct (py_get md (L "xesam:title")); [|eexists; reflexivity]. cbn [bind].
    destruct Hv as [[z ->] | [-> | [[l ->] | [d ->]]]]; eexists; reflexivity.
  - rewrite read_track_fields, Hp.
    destruct (Get player PLAYER (L "Metadata")) as [md|]; [|eexists; reflexivity].
    cbn [bind]. destruct (track_fields self md); [|eexists; reflexivity]. cbn [bind].
    destruct Hv as [[z ->] | [-> | [[l ->] | [d ->]]]]; eexists; reflexivity.
Qed.

(** X14: values that are there but of the wrong kind end in the stopped
    state: a length that is a text, null, a list or a map; an artist value
    that is an integer, a map keyed by texts or the empty text; an album
    or a title that is an integer, null, a list or a map while sanitizing
    is on; a status that is an integer, null, a list or a map. *)
Theorem stopped_on_malformed_read (self : Py3status) (w : dbus_world) (b : bus)
  (obj : proxy_object) :
  SessionBus w = Return b ->
  reach b = Return obj ->
  malformed_read self (player_of obj) ->
  _get_text self w = Return (stopped_state self).
Proof.
  intros Hb Ho F. destruct (malformed_read_raises self (player_of obj) F) as [e He].
  now rewrite (get_text_cases self w b Hb), Ho, He.
Qed.

Lemma stopped_on_malformed_read_witness :
  SessionBus (world_with (Return text_length_player))
  = Return (bus_with (Return text_length_player))
  /\ reach (bus_with (Return text_length_player)) = Return text_length_player
  /\ malformed_read default_self (player_of text_length_player)
  /\ _get_text default_self (world_with (Return text_length_player))
     = Return (stopped_state default_self).
Proof.
  assert (F : malformed_read default_self (player_of text_length_player)).
  { apply (length_text_or_container default_self (player_of text_length_player)
             (VDict ((L "mpris:length", VStr (L "213000001"))
                     :: without (L "mpris:length") sample_metadata))
             (VStr (L "213000001")));
      [reflexivity | reflexivity | left; exists (L "213000001"); reflexivity]. }
  split; [reflexivity|]. split; [reflexivity|]. split; [exact F|].
  apply (stopped_on_malformed_read default_self (world_with (Return text_length_player))
           (bus_with (Return text_length_player)) text_length_player);
    [reflexivity | reflexivity | exact F].
Defined.

(** *** Words that break the expressions *)

Lemma run_error_app (st : Re.pstate) (a b : str) :
  Re.run st a = Re.ReError -> Re.run st (a ++ b) = Re.ReError.
Proof. intros H. now rewrite run_app, H. Qed.

Lemma close_paren_after_delimiter (c : config) (ws : list str) :
  plain_words ws = true ->
  sanitize_words c = L ")" :: ws ->
  _compile_re c after_delimiter_expression = Re.ReError.
Proof.
  intros Hp Hw. unfold _compile_re. cbv zeta. rewrite Hw.
  destruct ws as [|w ws].
  - vm_compute. reflexivity.
  - unfold Re.compile, Re.parse.
    set (mw := join (L "|") (w :: ws)).
    change (replace (L "META_WORDS_HERE") (join (L "|") (L ")" :: w :: ws))
              after_delimiter_expression)
      with (L "([\-,;/])([^\-,;/])*()|" ++ mw ++ L ").*").
    rewrite run_app.
    match goal with |- context [Re.run ?st (L ?s)] =>
      let r := eval vm_compute in (Re.run st (L s)) in
      change (Re.run st (L s)) with r end.
    cbv beta iota. rewrite run_app. unfold mw. rewrite (run_join _ _ _ Hp).
    reflexivity.
Qed.

Lemma star_after_delimiter (c : config) (w : str) (ws : list str) :
  sanitize_words c = (L "*" ++ w) :: ws ->
  _compile_re c after_delimiter_expression = Re.ReError.
Proof.
  intros Hw. unfold _compile_re. cbv zeta. rewrite Hw.
  unfold Re.compile, Re.parse.
  assert (E : exists rest,
            replace (L "META_WORDS_HERE") (join (L "|") ((L "*" ++ w) :: ws))
              after_delimiter_expression
            = L "([\-,;/])([^\-,;/])*(*" ++ rest).
  { destruct ws as [|w2 ws].
    - exists (w ++ L ").*"). reflexivity.
    - exists ((w ++ L "|" ++ join (L "|") (w2 :: ws)) ++ L ").*"). reflexivity. }
  destruct E as [rest ->].
  rewrite (run_error_app _ (L "([\-,;/])([^\-,;/])*(*") rest); [reflexivity|].
  vm_compute. reflexivity.
Qed.

(** X15: a first word that is a closing parenthesis, or that begins with
    a star, makes the hook fail with the error of the pattern compiler:
    the words are pasted into the expressions as they are. *)
Theorem unbalanced_words_break_the_hook :
  (forall c ws, plain_words ws = true -> sanitize_words c = L ")" :: ws ->
                post_config_hook c = Re.ReError)
  /\ (forall c w ws, sanitize_words c = (L "*" ++ w) :: ws ->
                     post_config_hook c = Re.ReError).
Proof.
  split.
  - intros c ws Hp Hw. unfold post_config_hook.
    now rewrite (close_paren_after_delimiter c ws Hp Hw).
  - intros c w ws Hw. unfold post_config_hook.
    now rewrite (star_after_delimiter c w ws Hw).
Qed.

Lemma unbalanced_words_break_the_hook_witness :
  plain_words [L "edit"] = true
  /\ post_config_hook
       (config_with (theme safe_format_spec) (L "{title}") true [L ")"; L "edit"])
     = Re.ReError
  /\ post_config_hook
       (config_with (theme safe_format_spec) (L "{title}") true [L "*" ++ L "live"; L "(x"])
     = Re.ReError.
Proof.
  split; [reflexivity|]. split.
  - apply (proj1 unbalanced_words_break_the_hook
             (config_with (theme safe_format_spec) (L "{title}") true [L ")"; L "edit"])
             [L "edit"]); reflexivity.
  - apply (proj2 unbalanced_words_break_the_hook
             (config_with (theme safe_format_spec) (L "{title}") true
                [L "*" ++ L "live"; L "(x"])
             (L "live") [L "(x"]); reflexivity.
Defined.
